(** * The reward composition engine of arena-rosnav

    A shallow embedding of [rl_utils/utils/rewards/reward_function.py]
    (class [RewardFunction]) together with the part of the Python and NumPy
    semantics its methods rely on: truth values, subscripting a dictionary,
    keyword-argument binding and attribute lookup.

    Conventions.
    - Python objects are untyped, so every argument and every dictionary
      entry is a [value].
    - Floating-point scalars are carried by rationals.  The engine only
      compares them, takes minima and adds them up; comparison and minimum
      do not round, sums are idealised.  NaN readings do not occur:
      [BaseCollectorUnit.process_laser_msg] replaces them by [range_max].
    - A method of [RewardFunction] is a computation over the object's
      attributes that either returns or raises.  A raise does not undo the
      assignments made before it, so the attributes are returned in both
      cases.
    - [call_log] is instrumentation: it records every [reward_unit(...)] and
      [reward_unit.reset()] the engine performs, in program order. *)

From Stdlib Require Import QArith Qminmax.
From stdpp Require Import gmap strings list fin_maps.

(** ** Python values *)

(** One record of a point cloud, [CloudPointDType] in
    [aggregate_collector_unit.py]. *)
Record Point := { px : Q; py : Q; pz : Q; pindex : Q }.

Inductive value :=
| VNone
| VBool (b : bool)
| VInt (z : Z)
| VFloat (q : Q)
| VStr (s : string)
| VArray (a : list Q)          (* one-dimensional float ndarray *)
| VBoolArray (a : list bool)   (* one-dimensional bool ndarray *)
| VCloud (c : list Point).     (* structured ndarray of cloud points *)

(** Keyword arguments and dictionaries with string keys. *)
Abbreviation dict := (gmap string value).

(** ** Exceptions *)

Inductive py_error :=
| MissingInputError      (* ValueError: Neither LaserScan nor PointCloud data was provided! *)
| GoalRadiusError        (* ValueError: Goal radius smaller than MIN_GOAL_RADIUS *)
| AmbiguousTruthValue    (* ValueError: truth value of an array with more than one element *)
| EmptyReduction         (* ValueError: zero-size array to reduction operation minimum *)
| AttributeError (name : string)
| TypeError (what : string)
| KeyError (key : string)
| RegistryError (identifier : string)
| UnitError (tag : string).

Inductive result (A : Type) :=
| Ok (a : A)
| Err (e : py_error).
Arguments Ok {A} a.
Arguments Err {A} e.

Definition result_map {A B} (f : A → B) (r : result A) : result B :=
  match r with
  | Ok a => Ok (f a)
  | Err e => Err e
  end.

(** ** Truth values, [min()] and [<=] *)

(** [bool(arr)] of an ndarray, given which of its elements are nonzero.
    An empty array is false (NumPy 1.x, with a deprecation warning), a
    one-element array has the truth value of its element, any longer
    array raises. *)
Definition ndarray_bool (nonzero : list bool) : result bool :=
  match nonzero with
  | [] => Ok false
  | [b] => Ok b
  | _ :: _ :: _ => Err AmbiguousTruthValue
  end.

Definition Qnonzero (q : Q) : bool := negb (Qeq_bool q 0).

(** A structured scalar is nonzero when one of its fields is. *)
Definition point_nonzero (p : Point) : bool :=
  Qnonzero (px p) || Qnonzero (py p) || Qnonzero (pz p) || Qnonzero (pindex p).

(** [bool(v)], the test behind [if v:] and [not v]. *)
Definition py_bool (v : value) : result bool :=
  match v with
  | VNone => Ok false
  | VBool b => Ok b
  | VInt z => Ok (negb (Z.eqb z 0))
  | VFloat q => Ok (Qnonzero q)
  | VStr s => Ok (negb (String.eqb s EmptyString))
  | VArray a => ndarray_bool (map Qnonzero a)
  | VBoolArray a => ndarray_bool a
  | VCloud c => ndarray_bool (map point_nonzero c)
  end.

Definition py_not (v : value) : result bool := result_map negb (py_bool v).

Definition bool_to_Q (b : bool) : Q := if b then 1%Q else 0%Q.

(** [v.min()].  Only arrays have a usable [min]. *)
Definition py_min (v : value) : result value :=
  match v with
  | VArray [] => Err EmptyReduction
  | VArray (x :: xs) => Ok (VFloat (foldl Qmin x xs))
  | VBoolArray [] => Err EmptyReduction
  | VBoolArray (b :: bs) => Ok (VBool (forallb id (b :: bs)))
  | VCloud _ => Err (TypeError "min")
  | VNone | VBool _ | VInt _ | VFloat _ | VStr _ => Err (AttributeError "min")
  end.

(** [v <= q] for a float [q]; elementwise on arrays. *)
Definition py_le (v : value) (q : Q) : result value :=
  match v with
  | VBool b => Ok (VBool (Qle_bool (bool_to_Q b) q))
  | VInt z => Ok (VBool (Qle_bool (inject_Z z) q))
  | VFloat x => Ok (VBool (Qle_bool x q))
  | VArray a => Ok (VBoolArray (map (λ x, Qle_bool x q) a))
  | VBoolArray a => Ok (VBoolArray (map (λ b, Qle_bool (bool_to_Q b) q) a))
  | VNone | VStr _ | VCloud _ => Err (TypeError "<=")
  end.

(** [x < y] on floats. *)
Definition Qlt_bool (x y : Q) : bool := negb (Qle_bool y x).

(** [d.update(other)]: the entries of [other] win. *)
Definition dict_update (d other : dict) : dict := other ∪ d.

(** ** Reward units *)

(** Modelled from the spec: the [RewardUnit] base class and the concrete
    units are not part of the sources at hand.  Following section 4.1 and
    4.3 of the specification, a unit reaches its owner only through
    [add_reward], [add_info], [add_internal_state_info],
    [get_internal_state_info] and the radius properties; a call of a unit is
    therefore a script of such requests that ends by returning the unit's
    new private state or by raising. *)
Inductive UnitProg :=
| UReturn (st : value)
| URaise (e : py_error)
| UAddReward (v : Q) (k : UnitProg)
| UAddInfo (info : dict) (k : UnitProg)
| UAddInternalStateInfo (key : string) (v : value) (k : UnitProg)
| UGetInternalStateInfo (key : string) (default : value) (k : value → UnitProg)
| UGoalRadius (k : Q → UnitProg)
| URobotRadius (k : Q → UnitProg).

(** Modelled from the spec: a unit carries the capability flag
    [on_safe_dist_violation], a private per-episode state, the call contract
    [unit(laser_scan=..., **kwargs)] and the reset contract. *)
Record RewardUnit := {
  on_safe_dist_violation : bool;
  unit_state : value;
  unit_call : value → value → dict → UnitProg;
  unit_reset : value → value;
}.

Definition set_unit_state (st : value) (u : RewardUnit) : RewardUnit :=
  {| on_safe_dist_violation := on_safe_dist_violation u;
     unit_state := st;
     unit_call := unit_call u;
     unit_reset := unit_reset u |}.

(** ** The RewardFunction object *)

Inductive event :=
| Called (i : nat) (laser_scan : value) (kwargs : dict)
| ResetUnit (i : nat).

(** The attributes of an instance.  [_safe_dist_breached] is the attribute
    read by the property [safe_dist_breached]; [None] stands for an
    attribute that has not been assigned. *)
Record RewardFunction := {
  _rew_func_name : string;
  _robot_radius : Q;
  _safe_dist : Q;
  _goal_radius : Q;
  _internal_state_info : dict;
  _curr_reward : Q;
  _info : dict;
  _rew_fnc_dict : list (string * dict);
  _reward_units : list RewardUnit;
  _safe_dist_breached : option value;
  call_log : list event;
}.

Definition set_goal_radius (v : Q) (rf : RewardFunction) : RewardFunction :=
  {| _rew_func_name := _rew_func_name rf; _robot_radius := _robot_radius rf;
     _safe_dist := _safe_dist rf; _goal_radius := v;
     _internal_state_info := _internal_state_info rf;
     _curr_reward := _curr_reward rf; _info := _info rf;
     _rew_fnc_dict := _rew_fnc_dict rf; _reward_units := _reward_units rf;
     _safe_dist_breached := _safe_dist_breached rf; call_log := call_log rf |}.

Definition set_internal_state_info (d : dict) (rf : RewardFunction) : RewardFunction :=
  {| _rew_func_name := _rew_func_name rf; _robot_radius := _robot_radius rf;
     _safe_dist := _safe_dist rf; _goal_radius := _goal_radius rf;
     _internal_state_info := d;
     _curr_reward := _curr_reward rf; _info := _info rf;
     _rew_fnc_dict := _rew_fnc_dict rf; _reward_units := _reward_units rf;
     _safe_dist_breached := _safe_dist_breached rf; call_log := call_log rf |}.

Definition set_curr_reward (r : Q) (rf : RewardFunction) : RewardFunction :=
  {| _rew_func_name := _rew_func_name rf; _robot_radius := _robot_radius rf;
     _safe_dist := _safe_dist rf; _goal_radius := _goal_radius rf;
     _internal_state_info := _internal_state_info rf;
     _curr_reward := r; _info := _info rf;
     _rew_fnc_dict := _rew_fnc_dict rf; _reward_units := _reward_units rf;
     _safe_dist_breached := _safe_dist_breached rf; call_log := call_log rf |}.

Definition set_info (d : dict) (rf : RewardFunction) : RewardFunction :=
  {| _rew_func_name := _rew_func_name rf; _robot_radius := _robot_radius rf;
     _safe_dist := _safe_dist rf; _goal_radius := _goal_radius rf;
     _internal_state_info := _internal_state_info rf;
     _curr_reward := _curr_reward rf; _info := d;
     _rew_fnc_dict := _rew_fnc_dict rf; _reward_units := _reward_units rf;
     _safe_dist_breached := _safe_dist_breached rf; call_log := call_log rf |}.

Definition set_reward_units (us : list RewardUnit) (rf : RewardFunction) : RewardFunction :=
  {| _rew_func_name := _rew_func_name rf; _robot_radius := _robot_radius rf;
     _safe_dist := _safe_dist rf; _goal_radius := _goal_radius rf;
     _internal_state_info := _internal_state_info rf;
     _curr_reward := _curr_reward rf; _info := _info rf;
     _rew_fnc_dict := _rew_fnc_dict rf; _reward_units := us;
     _safe_dist_breached := _safe_dist_breached rf; call_log := call_log rf |}.

Definition set_call_log (l : list event) (rf : RewardFunction) : RewardFunction :=
  {| _rew_func_name := _rew_func_name rf; _robot_radius := _robot_radius rf;
     _safe_dist := _safe_dist rf; _goal_radius := _goal_radius rf;
     _internal_state_info := _internal_state_info rf;
     _curr_reward := _curr_reward rf; _info := _info rf;
     _rew_fnc_dict := _rew_fnc_dict rf; _reward_units := _reward_units rf;
     _safe_dist_breached := _safe_dist_breached rf; call_log := l |}.

(** ** Methods as computations over the attributes *)

Definition M (A : Type) : Type := RewardFunction → result A * RewardFunction.

Definition ret {A} (a : A) : M A := λ rf, (Ok a, rf).

Definition raise {A} (e : py_error) : M A := λ rf, (Err e, rf).

Definition bind {A B} (m : M A) (f : A → M B) : M B :=
  λ rf, match m rf with
        | (Ok a, rf') => f a rf'
        | (Err e, rf') => (Err e, rf')
        end.

Definition lift {A} (r : result A) : M A := λ rf, (r, rf).

Definition read {A} (f : RewardFunction → A) : M A := λ rf, (Ok (f rf), rf).

Definition modify (f : RewardFunction → RewardFunction) : M unit :=
  λ rf, (Ok tt, f rf).

Notation "'let*' x := c 'in' k" := (bind c (λ x, k))
  (at level 10, x name, c at level 100, k at level 200).

Definition log_event (e : event) : M unit :=
  modify (λ rf, set_call_log (call_log rf ++ [e]) rf).

(** [add_reward]: [self._curr_reward += value]. *)
Definition add_reward (v : Q) : M unit :=
  modify (λ rf, set_curr_reward (_curr_reward rf + v)%Q rf).

(** [add_info]: [self._info.update(info)]. *)
Definition add_info (info : dict) : M unit :=
  modify (λ rf, set_info (dict_update (_info rf) info) rf).

(** [add_internal_state_info]: [self._internal_state_info[key] = value]. *)
Definition add_internal_state_info (key : string) (v : value) : M unit :=
  modify (λ rf, set_internal_state_info (<[key := v]> (_internal_state_info rf)) rf).

(** The subscript [self._internal_state_info[key]]. *)
Definition internal_state_getitem (key : string) : M value :=
  λ rf, match _internal_state_info rf !! key with
        | Some v => (Ok v, rf)
        | None => (Err (KeyError key), rf)
        end.

(** [get_internal_state_info]. *)
Definition get_internal_state_info (key : string) (dflt : value) : M value :=
  let* v := internal_state_getitem key in
  let* b := lift (py_bool v) in
  if b then internal_state_getitem key else ret dflt.

(** [reset_internal_state_info]: every key of the dictionary is assigned
    [None], one after the other. *)
Definition dict_keys (d : dict) : list string := (map_to_list d).*1.

Definition reset_internal_state_info : M unit :=
  modify (λ rf,
    set_internal_state_info
      (foldl (λ d key, <[key := VNone]> d)
             (_internal_state_info rf) (dict_keys (_internal_state_info rf)))
      rf).

(** [_reset], run on every environment step. *)
Definition _reset : M unit :=
  let* _ := modify (set_curr_reward 0%Q) in
  let* _ := modify (set_info ∅) in
  reset_internal_state_info.

(** The property [safe_dist_breached]: [return self._safe_dist_breached]. *)
Definition safe_dist_breached : M value :=
  λ rf, match _safe_dist_breached rf with
        | Some v => (Ok v, rf)
        | None => (Err (AttributeError "_safe_dist_breached"), rf)
        end.

(** [set_safe_dist_breached]. *)
Definition set_safe_dist_breached : M unit :=
  let* m := get_internal_state_info "min_dist_laser" VNone in
  let* safe := read _safe_dist in
  let* b := lift (py_le m safe) in
  add_internal_state_info "safe_dist_breached" b.

(** Running the script of a unit against its owner. *)
Fixpoint run_unit (p : UnitProg) : M value :=
  match p with
  | UReturn st => ret st
  | URaise e => raise e
  | UAddReward v k => let* _ := add_reward v in run_unit k
  | UAddInfo info k => let* _ := add_info info in run_unit k
  | UAddInternalStateInfo key v k =>
      let* _ := add_internal_state_info key v in run_unit k
  | UGetInternalStateInfo key dflt k =>
      let* v := get_internal_state_info key dflt in run_unit (k v)
  | UGoalRadius k => let* r := read _goal_radius in run_unit (k r)
  | URobotRadius k => let* r := read _robot_radius in run_unit (k r)
  end.

(** [reward_unit(laser_scan=laser_scan, **kwargs)] for the unit at position
    [i] of [_reward_units]. *)
Definition call_unit (laser_scan : value) (kwargs : dict)
    (i : nat) (u : RewardUnit) : M unit :=
  let* _ := log_event (Called i laser_scan kwargs) in
  let* st := run_unit (unit_call u (unit_state u) laser_scan kwargs) in
  modify (λ rf, set_reward_units (<[i := set_unit_state st u]> (_reward_units rf)) rf).

(** [reward_unit.reset()] for the unit at position [i]. *)
Definition reset_unit (i : nat) (u : RewardUnit) : M unit :=
  let* _ := log_event (ResetUnit i) in
  modify (λ rf,
    set_reward_units
      (<[i := set_unit_state (unit_reset u (unit_state u)) u]> (_reward_units rf)) rf).

(** [for reward_unit in self._reward_units: body], the units numbered from
    [i] on.  A unit is only changed by its own call, so the unit handed to
    the body is the one stored at that position. *)
Fixpoint for_each_unit (body : nat → RewardUnit → M unit)
    (i : nat) (us : list RewardUnit) : M unit :=
  match us with
  | [] => ret tt
  | u :: rest => let* _ := body i u in for_each_unit body (S i) rest
  end.

(** The body of the loop of [calculate_reward]. *)
Definition calculate_step (laser_scan : value) (kwargs : dict)
    (i : nat) (u : RewardUnit) : M unit :=
  let* flag := safe_dist_breached in
  let* breached := lift (py_bool flag) in
  if breached && negb (on_safe_dist_violation u) then ret tt
  else call_unit laser_scan kwargs i u.

(** [calculate_reward(self, laser_scan, *args, **kwargs)], called with the
    keyword arguments [call].  Binding the arguments comes first: the
    parameter [laser_scan] has no default. *)
Definition calculate_reward (call : dict) : M unit :=
  match call !! "laser_scan" with
  | None => raise (TypeError "laser_scan")
  | Some laser_scan =>
      let kwargs := delete "laser_scan" call in
      let* us := read _reward_units in
      for_each_unit (calculate_step laser_scan kwargs) 0 us
  end.

(** The object as [__init__] has it when it reaches
    [_setup_reward_function]: the scalar attributes and the specification
    are assigned, the unit list is not yet. *)
Definition initial_attributes (rew_func_name : string)
    (robot_radius goal_radius safe_dist : Q) (spec : list (string * dict))
    : RewardFunction :=
  {| _rew_func_name := rew_func_name; _robot_radius := robot_radius;
     _safe_dist := safe_dist; _goal_radius := goal_radius;
     _internal_state_info := ∅; _curr_reward := 0%Q; _info := ∅;
     _rew_fnc_dict := spec; _reward_units := [];
     _safe_dist_breached := None; call_log := [] |}.

(** [rospy.get_param(name, default)] against the parameter server. *)
Definition get_param (server : gmap string Q) (name : string) (dflt : Q) : Q :=
  default dflt (server !! name).

Section Engine.

(** [REWARD_CONSTANTS.MIN_GOAL_RADIUS], declared in [rewards/constants.py]. *)
Variable MIN_GOAL_RADIUS : Q.

(** [min_distance_from_pointcloud] and [load_rew_fnc] of
    [rewards/utils.py], and [RewardUnitFactory.instantiate]. *)
Variable min_distance_from_pointcloud : value → result value.
Variable load_rew_fnc : string → result (list (string * dict)).
Variable instantiate : string → result (RewardFunction → dict → result RewardUnit).

(** The setter of the property [goal_radius]. *)
Definition goal_radius_setter (v : Q) : M unit :=
  if Qlt_bool v MIN_GOAL_RADIUS then raise GoalRadiusError
  else modify (set_goal_radius v).

(** [reset], run before each episode. *)
Definition reset (server : gmap string Q) : M unit :=
  let* _ := goal_radius_setter (get_param server "/goal_radius" 0.3%Q) in
  let* us := read _reward_units in
  for_each_unit reset_unit 0 us.

(** [set_min_dist_laser]. *)
Definition set_min_dist_laser
    (laser_scan point_cloud from_aggregate_obs : value) : M unit :=
  let* no_laser := lift (py_not laser_scan) in
  let* missing := (if no_laser : bool then lift (py_not point_cloud) else ret false) in
  if missing : bool then raise MissingInputError
  else
    let* direct := lift (py_not from_aggregate_obs) in
    if direct : bool then
      let* m := lift (py_min laser_scan) in
      add_internal_state_info "min_dist_laser" m
    else
      let* m := lift (min_distance_from_pointcloud point_cloud) in
      add_internal_state_info "min_dist_laser" m.

(** [update_internal_state_info]; the extra keyword arguments are not used. *)
Definition update_internal_state_info
    (laser_scan point_cloud from_aggregate_obs : value) (kwargs : dict) : M unit :=
  let* _ := set_min_dist_laser laser_scan point_cloud from_aggregate_obs in
  set_safe_dist_breached.

(** [get_reward], called with the keyword arguments [call].  The three
    named parameters take their entries of [call] or their defaults, the
    remaining entries form [kwargs].  (A positional argument binds the
    same parameter; surplus positional arguments are dropped.) *)
Definition get_reward (call : dict) : M (Q * dict) :=
  let laser_scan := default VNone (call !! "laser_scan") in
  let point_cloud := default VNone (call !! "point_cloud") in
  let from_aggregate_obs := default (VBool false) (call !! "from_aggregate_obs") in
  let kwargs :=
    delete "laser_scan" (delete "point_cloud" (delete "from_aggregate_obs" call)) in
  let* _ := _reset in
  let* _ := update_internal_state_info laser_scan point_cloud from_aggregate_obs kwargs in
  let* _ := calculate_reward kwargs in
  let* r := read _curr_reward in
  let* i := read _info in
  ret (r, i).

(** The comprehension of [_setup_reward_function]:
    [instantiate(unit_name)(reward_function=self, **kwargs)] for every
    item, in order; the first failure aborts it.  A parameter named
    [reward_function] would be passed twice. *)
Fixpoint setup_units (self : RewardFunction) (items : list (string * dict))
    : result (list RewardUnit) :=
  match items with
  | [] => Ok []
  | (unit_name, kwargs) :: rest =>
      match instantiate unit_name with
      | Err e => Err e
      | Ok ctor =>
          match kwargs !! "reward_function" with
          | Some _ => Err (TypeError "reward_function")
          | None =>
              match ctor self kwargs with
              | Err e => Err e
              | Ok u =>
                  match setup_units self rest with
                  | Err e => Err e
                  | Ok us => Ok (u :: us)
                  end
              end
          end
      end
  end.

Definition _setup_reward_function (self : RewardFunction) : result (list RewardUnit) :=
  setup_units self (_rew_fnc_dict self).

(** [__init__]. *)
Definition __init__ (rew_func_name : string)
    (robot_radius goal_radius safe_dist : Q) : result RewardFunction :=
  match load_rew_fnc rew_func_name with
  | Err e => Err e
  | Ok spec =>
      let self :=
        initial_attributes rew_func_name robot_radius goal_radius safe_dist spec in
      match _setup_reward_function self with
      | Err e => Err e
      | Ok us => Ok (set_reward_units us self)
      end
  end.

End Engine.

(** ** The worked example of the specification *)

(** Modelled from the spec: the unit [goal_distance] of the end-to-end
    example.  It is not breach-exempt and contributes
    [weight * distance_to_goal]. *)
Definition goal_distance_unit (weight : Q) : RewardUnit :=
  {| on_safe_dist_violation := false;
     unit_state := VNone;
     unit_call := λ st _ kwargs,
       match kwargs !! "distance_to_goal" with
       | Some (VFloat d) => UAddReward (weight * d)%Q (UReturn st)
       | _ => URaise (UnitError "distance_to_goal")
       end;
     unit_reset := λ st, st |}.

(** Modelled from the spec: the unit [safe_distance] of the end-to-end
    example.  It runs on a breach and contributes [-5] when the shared
    state reports one. *)
Definition safe_distance_unit : RewardUnit :=
  {| on_safe_dist_violation := true;
     unit_state := VNone;
     unit_call := λ st _ _,
       UGetInternalStateInfo "safe_dist_breached" VNone (λ b,
         match b with
         | VBool true =>
             UAddReward (-5)%Q
               (UAddInfo {[ "safe_dist_violation" := VBool true ]} (UReturn st))
         | _ => UReturn st
         end);
     unit_reset := λ st, st |}.

(** Modelled from the spec: a registry holding the two units. *)
Definition example_instantiate (identifier : string)
    : result (RewardFunction → dict → result RewardUnit) :=
  if String.eqb identifier "goal_distance" then
    Ok (λ _ kwargs,
          match kwargs !! "weight" with
          | Some (VFloat w) => Ok (goal_distance_unit w)
          | _ => Err (UnitError "weight")
          end)
  else if String.eqb identifier "safe_distance" then
    Ok (λ _ _, Ok safe_distance_unit)
  else Err (RegistryError identifier).

(** The unit specification [{goal_distance: {weight: -0.1}, safe_distance: {}}]. *)
Definition example_spec : list (string * dict) :=
  [ ("goal_distance", {[ "weight" := VFloat (-0.1)%Q ]}); ("safe_distance", ∅) ].

Definition example_load_rew_fnc (name : string) : result (list (string * dict)) :=
  Ok example_spec.

(** The examples never select the point cloud as the source of the minimum
    distance; this instance of the helper puts every cloud at distance 1. *)
Definition example_min_distance_from_pointcloud (pc : value) : result value :=
  Ok (VFloat 1%Q).

Definition example_MIN_GOAL_RADIUS : Q := 0.1%Q.

(** The engine of the example: robot radius 0.3, goal radius 0.3, safe
    distance 0.3. *)
Definition example_rf : RewardFunction :=
  {| _rew_func_name := "example"; _robot_radius := 0.3%Q;
     _safe_dist := 0.3%Q; _goal_radius := 0.3%Q;
     _internal_state_info := ∅; _curr_reward := 0%Q; _info := ∅;
     _rew_fnc_dict := example_spec;
     _reward_units := [goal_distance_unit (-0.1)%Q; safe_distance_unit];
     _safe_dist_breached := None; call_log := [] |}.

(** An engine whose shared state holds a minimum distance of zero. *)
Definition example_rf_at_obstacle : RewardFunction :=
  set_internal_state_info {[ "min_dist_laser" := VFloat 0%Q ]} example_rf.

(** The engine of the example after a refresh that saw the minimum 0.2,
    and the same engine with the attribute behind the property
    [safe_dist_breached] assigned from outside the class. *)
Definition example_rf_refreshed : RewardFunction :=
  set_internal_state_info
    (<[ "safe_dist_breached" := VBool true ]>
       {[ "min_dist_laser" := VFloat 0.2%Q ]}) example_rf.

Definition example_rf_flagged : RewardFunction :=
  {| _rew_func_name := "example"; _robot_radius := 0.3%Q;
     _safe_dist := 0.3%Q; _goal_radius := 0.3%Q;
     _internal_state_info := _internal_state_info example_rf_refreshed;
     _curr_reward := 0%Q; _info := ∅;
     _rew_fnc_dict := example_spec;
     _reward_units := [goal_distance_unit (-0.1)%Q; safe_distance_unit];
     _safe_dist_breached := Some (VBool true); call_log := [] |}.

(** The keyword arguments of the example step: a scan whose minimum is 0.2
    and the distance to the goal, 2.0. *)
Definition example_call : dict :=
  <[ "distance_to_goal" := VFloat 2%Q ]> {[ "laser_scan" := VArray [0.7%Q; 0.2%Q] ]}.

Definition example_call_single_beam : dict :=
  <[ "distance_to_goal" := VFloat 2%Q ]> {[ "laser_scan" := VArray [0.2%Q] ]}.

(** ** What the claims speak about *)

(** The unit that [reward_unit.reset()] leaves behind. *)
Definition reset_state (u : RewardUnit) : RewardUnit :=
  set_unit_state (unit_reset u (unit_state u)) u.

(** A specification entry is valid for a registry when its identifier is
    registered, its parameters do not shadow the back-reference and the
    registered constructor accepts them. *)
Definition built_from
    (instantiate : string → result (RewardFunction → dict → result RewardUnit))
    (self : RewardFunction) (item : string * dict) (u : RewardUnit) : Prop :=
  ∃ ctor, instantiate item.1 = Ok ctor ∧ ctor self item.2 = Ok u.

Definition valid_entry
    (instantiate : string → result (RewardFunction → dict → result RewardUnit))
    (self : RewardFunction) (item : string * dict) : Prop :=
  item.2 !! "reward_function" = None ∧ ∃ u, built_from instantiate self item u.

(** The calls the skip rule of the specification asks for, for the units
    numbered from [i] on: a unit is left out exactly when the flag is set
    and the unit is not breach-exempt. *)
Fixpoint expected_calls (breached : bool) (laser_scan : value) (kwargs : dict)
    (i : nat) (us : list RewardUnit) : list event :=
  match us with
  | [] => []
  | u :: rest =>
      (if breached && negb (on_safe_dist_violation u) then []
       else [Called i laser_scan kwargs])
      ++ expected_calls breached laser_scan kwargs (S i) rest
  end.

(** ** The public interface, call after call *)

(** A caller of the engine: the environment, which steps and resets it, and
    the units, which publish and read.  What a method raises is caught by
    the caller, who goes on using the object. *)
Inductive method_call :=
| CallGetReward (call : dict)
| CallCalculateReward (call : dict)
| CallUpdateInternalStateInfo (laser_scan point_cloud from_aggregate_obs : value)
    (kwargs : dict)
| CallReset (server : gmap string Q)
| CallSetGoalRadius (v : Q)
| CallAddReward (v : Q)
| CallAddInfo (info : dict)
| CallAddInternalStateInfo (key : string) (v : value)
| CallGetInternalStateInfo (key : string) (dflt : value).

Definition run_method (MIN : Q) (mdp : value → result value)
    (c : method_call) (rf : RewardFunction) : RewardFunction :=
  match c with
  | CallGetReward call => (get_reward mdp call rf).2
  | CallCalculateReward call => (calculate_reward call rf).2
  | CallUpdateInternalStateInfo laser cloud flag kwargs =>
      (update_internal_state_info mdp laser cloud flag kwargs rf).2
  | CallReset server => (reset MIN server rf).2
  | CallSetGoalRadius v => (goal_radius_setter MIN v rf).2
  | CallAddReward v => (add_reward v rf).2
  | CallAddInfo info => (add_info info rf).2
  | CallAddInternalStateInfo key v => (add_internal_state_info key v rf).2
  | CallGetInternalStateInfo key dflt => (get_internal_state_info key dflt rf).2
  end.

Definition run_methods (MIN : Q) (mdp : value → result value)
    (cs : list method_call) (rf : RewardFunction) : RewardFunction :=
  foldl (λ rf c, run_method MIN mdp c rf) rf cs.

(** What a unit is apart from its private state. *)
Definition unit_shape (u : RewardUnit)
    : bool * (value → value → dict → UnitProg) * (value → value) :=
  (on_safe_dist_violation u, unit_call u, unit_reset u).

(** An engine with the [goal_distance] unit alone, its attribute assigned
    from outside the class. *)
Definition example_rf_goal_only : RewardFunction :=
  {| _rew_func_name := "goal_only"; _robot_radius := 0.3%Q;
     _safe_dist := 0.3%Q; _goal_radius := 0.3%Q;
     _internal_state_info := ∅; _curr_reward := 0%Q; _info := ∅;
     _rew_fnc_dict := [ ("goal_distance", {[ "weight" := VFloat (-0.1)%Q ]}) ];
     _reward_units := [goal_distance_unit (-0.1)%Q];
     _safe_dist_breached := Some (VBool true); call_log := [] |}.

(** ** Laser messages: [BaseCollectorUnit.process_laser_msg] *)

(** A float of a laser message: a number, NaN or an infinity. *)
Inductive reading :=
| RNum (q : Q)
| RNan
| RInf (negative : bool).

Definition is_nan (r : reading) : bool :=
  match r with
  | RNan => true
  | RNum _ | RInf _ => false
  end.

(** The two fields of [sensor_msgs/LaserScan] that are read. *)
Record LaserScanMsg := {
  ranges : list reading;
  range_max : reading;
}.

(** [process_laser_msg].  [np.zeros] refuses a negative size with a
    ValueError, which is the result [None]. *)
Definition process_laser_msg (laser_msg : LaserScanMsg) (laser_num_beams : Z)
    : option (list reading) :=
  if Nat.eqb (length (ranges laser_msg)) 0 then
    if (laser_num_beams <? 0)%Z then None
    else Some (replicate (Z.to_nat laser_num_beams) (RNum 0%Q))
  else
    Some (map (λ r, if is_nan r then range_max laser_msg else r)
              (ranges laser_msg)).

Definition example_scan_msg : LaserScanMsg :=
  {| ranges := [RNum 0.5%Q; RNan; RInf false]; range_max := RNum 3.5%Q |}.

(** ** Aggregated observations: [AggregateCollectorUnit] *)

(** [Observation], a value with the staleness flag of [Staleable]. *)
Record Observation (T : Type) := {
  _stale : bool;
  _value : T;
}.
Arguments _stale {T} _.
Arguments _value {T} _.

(** [Observation.__init__]: a new observation is stale. *)
Definition new_observation {T} (initial_value : T) : Observation T :=
  {| _stale := true; _value := initial_value |}.

(** [Observation.update]. *)
Definition update {T} (v : T) (o : Observation T) : Observation T :=
  {| _stale := false; _value := v |}.

(** [Staleable.invalidate]. *)
Definition invalidate {T} (o : Observation T) : Observation T :=
  {| _stale := true; _value := _value o |}.

Section Aggregate.

(** The messages: laser scans with their field [ranges], semantic data. *)
Variables LaserScan Ranges SemanticData Accumulated : Type.
Variable scan_ranges : LaserScan → Ranges.

(** [np.minimum.accumulate] on the list of the sensors' ranges; [None] when
    NumPy raises. *)
Variable minimum_accumulate : list Ranges → option Accumulated.

(** [Constants.OBS_DICT_KEYS.LASER]. *)
Variable LASER : string.

(** What the observation dictionary holds. *)
Inductive obs_value :=
| OLaser (a : Accumulated)
| OSemantic (s : SemanticData)
| OOther (v : value).

(** The two attributes of the collector.  A semantic observation goes with
    the [value] of its enumeration member, the key it is delivered under. *)
Record AggregateCollectorUnit := {
  _laser_observations : list (Observation LaserScan);
  _semantic_observations : list (string * Observation SemanticData);
}.

(** [any(not observation.stale for observation in ...)]. *)
Definition any_fresh (obs : list (Observation LaserScan)) : bool :=
  existsb (λ o, negb (_stale o)) obs.

(** The second loop of [get_observations]. *)
Definition write_semantic (sem : list (string * Observation SemanticData))
    (obs_dict : gmap string obs_value) : gmap string obs_value :=
  foldl (λ d entry, <[entry.1 := OSemantic (_value entry.2)]> d) obs_dict sem.

(** [get_observations]: the collector afterwards, and the dictionary it
    returns unless NumPy raised. *)
Definition get_observations (self : AggregateCollectorUnit)
    (obs_dict : gmap string obs_value)
    : option (gmap string obs_value) * AggregateCollectorUnit :=
  if any_fresh (_laser_observations self) then
    match minimum_accumulate
            (map (λ o, scan_ranges (_value o)) (_laser_observations self)) with
    | None => (None, self)
    | Some a =>
        let self' :=
          {| _laser_observations := map invalidate (_laser_observations self);
             _semantic_observations := _semantic_observations self |} in
        (Some (write_semantic (_semantic_observations self)
                 (<[LASER := OLaser a]> obs_dict)), self')
    end
  else
    (Some (write_semantic (_semantic_observations self) obs_dict), self).

End Aggregate.

(** An instance of [np.minimum.accumulate] for scans given as lists of
    finite ranges: row by row the running elementwise minimum; rows of
    different lengths make NumPy raise. *)
Fixpoint accumulate_rows (acc : list Q) (rows : list (list Q)) : list (list Q) :=
  match rows with
  | [] => []
  | r :: rest =>
      let acc' := zip_with Qmin acc r in
      acc' :: accumulate_rows acc' rest
  end.

Definition example_accumulate (rows : list (list Q)) : option (list (list Q)) :=
  match rows with
  | [] => Some []
  | r :: rest =>
      if forallb (λ r', Nat.eqb (length r') (length r)) rest then
        Some (r :: accumulate_rows r rest)
      else None
  end.

(** A collector with two laser sensors that have both delivered a scan and
    one semantic layer that has not delivered yet. *)
Definition example_collector : AggregateCollectorUnit (list Q) (list Q) :=
  {| _laser_observations :=
       [update [1%Q; 5%Q] (new_observation []);
        update [4%Q; 2%Q] (new_observation [])];
     _semantic_observations := [("pedestrian_location", new_observation [])] |}.

(** The same collector before any scan has arrived. *)
Definition example_collector_idle : AggregateCollectorUnit (list Q) (list Q) :=
  {| _laser_observations := [new_observation []; new_observation []];
     _semantic_observations := [("pedestrian_location", new_observation [])] |}.

(** [respects R m]: whatever [m] does, returning or raising, the object it
    leaves is related by [R] to the object it found. *)
Definition respects {A} (R : relation RewardFunction) (m : M A) : Prop :=
  ∀ rf, R rf (m rf).2.

(** * Properties *)

Ltac unfold_m :=
  unfold bind, ret, raise, lift, read, modify in *.

(** ** Attributes that a setter leaves alone *)

Lemma curr_reward_set_internal d rf :
  _curr_reward (set_internal_state_info d rf) = _curr_reward rf.
Proof. reflexivity. Qed.

Lemma set_internal_state_info_same rf :
  set_internal_state_info (_internal_state_info rf) rf = rf.
Proof. by destruct rf. Qed.

(** ** The per-step reset *)

Lemma foldl_assign_none_lookup (keys : list string) (d : dict) (k : string) :
  foldl (λ d key, <[key := VNone]> d) d keys !! k
  = if decide (k ∈ keys) then Some VNone else d !! k.
Proof.
  revert d. induction keys as [|key keys IH]; intros d; cbn [foldl].
  - case_decide as Hin; [|done]. by apply elem_of_nil in Hin.
  - rewrite IH. destruct (decide (k ∈ keys)) as [Hin|Hout].
    + rewrite decide_True; [done|]. apply elem_of_cons. by right.
    + destruct (decide (k = key)) as [->|Hne].
      * rewrite lookup_insert_eq, decide_True; [done|]. apply elem_of_cons. by left.
      * rewrite lookup_insert_ne, decide_False; [done| |done].
        intros Hin. apply elem_of_cons in Hin as [?|?]; done.
Qed.

Lemma elem_of_dict_keys (d : dict) (k : string) :
  k ∈ dict_keys d ↔ is_Some (d !! k).
Proof.
  unfold dict_keys. rewrite list_elem_of_fmap. split.
  - intros [[k' v] [-> Hin]]. apply elem_of_map_to_list in Hin. by exists v.
  - intros [v Hv]. exists (k, v). split; [done|]. by apply elem_of_map_to_list.
Qed.

Lemma reset_internal_state_info_fmap rf :
  reset_internal_state_info rf
  = (Ok tt, set_internal_state_info ((λ _, VNone) <$> _internal_state_info rf) rf).
Proof.
  unfold reset_internal_state_info, modify. do 2 f_equal.
  apply map_eq. intros k.
  rewrite foldl_assign_none_lookup, lookup_fmap.
  case_decide as Hin.
  - apply elem_of_dict_keys in Hin as [v ->]. done.
  - destruct (_internal_state_info rf !! k) as [v|] eqn:Hk; [|done].
    exfalso. apply Hin, elem_of_dict_keys. by exists v.
Qed.

Lemma reset_step_result rf :
  _reset rf
  = (Ok tt,
     set_internal_state_info ((λ _, VNone) <$> _internal_state_info rf)
       (set_info ∅ (set_curr_reward 0%Q rf))).
Proof. unfold _reset. unfold_m. by rewrite reset_internal_state_info_fmap. Qed.

Lemma reset_forgets_step_state r i rf :
  _reset (set_curr_reward r (set_info i rf)) = _reset rf.
Proof. by destruct rf. Qed.

(** C4.  [get_reward] is the per-step reset followed by the refresh and
    the evaluation run on the object the reset leaves.  The reset returns
    normally, sets the accumulated reward to 0, empties the accumulated
    info, and assigns the unset value to every key of the shared scratch
    state, whose key set it leaves as it was.  Hence the outcome of
    [get_reward] does not depend on the reward or the info accumulated
    before the call. *)
Theorem per_step_reset_clears_state
    (mdp : value → result value) (call : dict) (rf : RewardFunction) :
  let rf0 := (_reset rf).2 in
  let kwargs :=
    delete "laser_scan" (delete "point_cloud" (delete "from_aggregate_obs" call)) in
  (_reset rf).1 = Ok tt
  ∧ get_reward mdp call rf
    = (let* _ := update_internal_state_info mdp
                   (default VNone (call !! "laser_scan"))
                   (default VNone (call !! "point_cloud"))
                   (default (VBool false) (call !! "from_aggregate_obs")) kwargs in
       let* _ := calculate_reward kwargs in
       let* r := read _curr_reward in
       let* i := read _info in
       ret (r, i)) rf0
  ∧ _curr_reward rf0 = 0%Q
  ∧ _info rf0 = ∅
  ∧ (∀ k, _internal_state_info rf0 !! k
          = (λ _, VNone) <$> (_internal_state_info rf !! k))
  ∧ dom (_internal_state_info rf0) = dom (_internal_state_info rf)
  ∧ (∀ r i, get_reward mdp call (set_curr_reward r (set_info i rf))
            = get_reward mdp call rf).
Proof.
  cbv zeta. split; [by rewrite reset_step_result|]. split.
  { unfold get_reward. unfold bind at 1. by rewrite reset_step_result. }
  rewrite reset_step_result. cbn [fst snd].
  split; [done|]. split; [done|]. split; [|split].
  - intros k. cbn. by rewrite lookup_fmap.
  - cbn. apply dom_fmap_L.
  - intros r i. unfold get_reward, bind.
    by rewrite reset_forgets_step_state.
Qed.

(** ** The goal-radius setter *)

Lemma Qlt_bool_true (x y : Q) : Qlt_bool x y = true ↔ (x < y)%Q.
Proof.
  unfold Qlt_bool. rewrite negb_true_iff. split.
  - intros H. apply Qnot_le_lt. intros Hle.
    apply Qle_bool_iff in Hle. congruence.
  - intros H. destruct (Qle_bool y x) eqn:E; [|done].
    apply Qle_bool_iff in E. exfalso. by apply (Qlt_not_le x y).
Qed.

Lemma Qlt_bool_false (x y : Q) : Qlt_bool x y = false ↔ (y <= x)%Q.
Proof.
  unfold Qlt_bool. rewrite negb_false_iff. apply Qle_bool_iff.
Qed.

(** C6.  A value below the minimum makes the goal-radius setter raise the
    domain error and leaves the object, its goal radius included, as it
    was; a value at or above the minimum is stored and the setter returns
    normally. *)
Theorem goal_radius_setter_validates (MIN v : Q) (rf : RewardFunction) :
  ((v < MIN)%Q → goal_radius_setter MIN v rf = (Err GoalRadiusError, rf))
  ∧ ((MIN <= v)%Q →
       goal_radius_setter MIN v rf = (Ok tt, set_goal_radius v rf)
       ∧ _goal_radius (set_goal_radius v rf) = v).
Proof.
  unfold goal_radius_setter. split.
  - intros H. apply Qlt_bool_true in H. by rewrite H.
  - intros H. apply Qlt_bool_false in H. by rewrite H.
Qed.

Lemma goal_radius_setter_validates_witness :
  goal_radius_setter example_MIN_GOAL_RADIUS 0.05%Q example_rf
    = (Err GoalRadiusError, example_rf)
  ∧ goal_radius_setter example_MIN_GOAL_RADIUS 0.5%Q example_rf
    = (Ok tt, set_goal_radius 0.5%Q example_rf).
Proof.
  split.
  - apply (goal_radius_setter_validates example_MIN_GOAL_RADIUS 0.05%Q example_rf).
    reflexivity.
  - apply (goal_radius_setter_validates example_MIN_GOAL_RADIUS 0.5%Q example_rf).
    vm_compute. discriminate.
Defined.

(** ** Publishing info *)

Lemma add_info_info (info : dict) rf :
  _info (add_info info rf).2 = info ∪ _info rf.
Proof. reflexivity. Qed.

(** C9.  After two units have published info one after the other, a key of
    the later unit carries the later unit's entry, whether or not the
    earlier unit published that key; any other key carries what it carried
    before the later unit published, in particular the entry of the earlier
    unit. *)
Theorem add_info_last_write_wins (earlier later : dict) (rf : RewardFunction)
    (k : string) :
  let rf1 := (add_info earlier rf).2 in
  let rf2 := (add_info later rf1).2 in
  _info rf2 !! k
  = match later !! k with
    | Some v => Some v
    | None => _info rf1 !! k
    end
  ∧ _info rf1 !! k
    = match earlier !! k with
      | Some v => Some v
      | None => _info rf !! k
      end.
Proof.
  cbv zeta. rewrite !add_info_info, !lookup_union.
  split.
  - by destruct (later !! k), (earlier !! k), (_info rf !! k).
  - by destruct (earlier !! k), (_info rf !! k).
Qed.

(** ** Reading the shared scratch state *)

Lemma get_internal_state_info_falsy key dflt v rf :
  _internal_state_info rf !! key = Some v →
  py_bool v = Ok false →
  get_internal_state_info key dflt rf = (Ok dflt, rf).
Proof.
  intros Hk Hv. unfold get_internal_state_info, internal_state_getitem.
  unfold_m. by rewrite Hk, Hv.
Qed.

Lemma get_internal_state_info_truthy key dflt v rf :
  _internal_state_info rf !! key = Some v →
  py_bool v = Ok true →
  get_internal_state_info key dflt rf = (Ok v, rf).
Proof.
  intros Hk Hv. unfold get_internal_state_info, internal_state_getitem.
  unfold_m. by rewrite Hk, Hv, Hk.
Qed.

Lemma get_internal_state_info_absent key dflt rf :
  _internal_state_info rf !! key = None →
  get_internal_state_info key dflt rf = (Err (KeyError key), rf).
Proof.
  intros Hk. unfold get_internal_state_info, internal_state_getitem.
  unfold_m. by rewrite Hk.
Qed.

(** C10.  A key that is present with a falsy value (0, 0.0, False, None, an
    empty string or an empty array among them) makes
    [get_internal_state_info] return the supplied default instead of the
    stored value; a key that is absent, as every key is on a freshly
    constructed object, makes it raise the key-lookup error. *)
Theorem get_internal_state_info_falsy_or_missing
    (load : string → result (list (string * dict)))
    (inst : string → result (RewardFunction → dict → result RewardUnit))
    (key : string) (dflt : value) (rf : RewardFunction) :
  Forall (λ v, py_bool v = Ok false)
    [VInt 0; VFloat 0%Q; VBool false; VNone; VStr EmptyString; VArray []]
  ∧ (∀ v, _internal_state_info rf !! key = Some v → py_bool v = Ok false →
          get_internal_state_info key dflt rf = (Ok dflt, rf))
  ∧ (_internal_state_info rf !! key = None →
       get_internal_state_info key dflt rf = (Err (KeyError key), rf))
  ∧ (∀ name rr gr sd, __init__ load inst name rr gr sd = Ok rf →
       get_internal_state_info key dflt rf = (Err (KeyError key), rf)).
Proof.
  split; [by repeat constructor|]. split; [|split].
  - intros v. apply get_internal_state_info_falsy.
  - apply get_internal_state_info_absent.
  - intros name rr gr sd Hinit. apply get_internal_state_info_absent.
    unfold __init__ in Hinit.
    destruct (load name) as [spec|]; [|done].
    destruct (_setup_reward_function _ _) as [us|]; [|done].
    by injection Hinit as <-.
Qed.

Lemma get_internal_state_info_falsy_or_missing_witness :
  get_internal_state_info "min_dist_laser" (VFloat 9%Q) example_rf_at_obstacle
    = (Ok (VFloat 9%Q), example_rf_at_obstacle)
  ∧ get_internal_state_info "safe_dist_breached" VNone example_rf_at_obstacle
    = (Err (KeyError "safe_dist_breached"), example_rf_at_obstacle)
  ∧ get_internal_state_info "min_dist_laser" VNone example_rf
    = (Err (KeyError "min_dist_laser"), example_rf).
Proof.
  split; [|split].
  - apply (get_internal_state_info_falsy_or_missing
             example_load_rew_fnc example_instantiate
             "min_dist_laser" (VFloat 9%Q) example_rf_at_obstacle)
      with (v := VFloat 0%Q); reflexivity.
  - apply (get_internal_state_info_falsy_or_missing
             example_load_rew_fnc example_instantiate
             "safe_dist_breached" VNone example_rf_at_obstacle).
    reflexivity.
  - apply (get_internal_state_info_falsy_or_missing
             example_load_rew_fnc example_instantiate
             "min_dist_laser" VNone example_rf)
      with (name := "example") (rr := 0.3%Q) (gr := 0.3%Q) (sd := 0.3%Q).
    reflexivity.
Defined.

(** ** Construction *)

Lemma setup_units_valid inst self (items : list (string * dict)) :
  Forall (valid_entry inst self) items →
  ∃ us, setup_units inst self items = Ok us
        ∧ Forall2 (built_from inst self) items us.
Proof.
  induction 1 as [|[unit_name kwargs] items [Hkw [u [ctor [Hreg Hctor]]]] _ IH].
  - by exists [].
  - destruct IH as [us [Hus Hall]]. exists (u :: us).
    simpl in *. rewrite Hreg, Hkw, Hctor, Hus. split; [done|].
    constructor; [|done]. by exists ctor.
Qed.

(** C7.  When the specification loads and every entry of it is valid, the
    constructor returns an object whose unit list matches the
    specification entry by entry, in the specification's order: the unit
    at a position is what the constructor registered under the entry's
    identifier returns for the entry's parameters and the object under
    construction. *)
Theorem init_builds_one_unit_per_entry
    (load : string → result (list (string * dict)))
    (inst : string → result (RewardFunction → dict → result RewardUnit))
    (name : string) (rr gr sd : Q) (spec : list (string * dict)) :
  load name = Ok spec →
  Forall (valid_entry inst (initial_attributes name rr gr sd spec)) spec →
  ∃ rf, __init__ load inst name rr gr sd = Ok rf
        ∧ _rew_fnc_dict rf = spec
        ∧ length (_reward_units rf) = length spec
        ∧ Forall2 (built_from inst (initial_attributes name rr gr sd spec))
            spec (_reward_units rf).
Proof.
  intros Hload Hvalid.
  destruct (setup_units_valid _ _ _ Hvalid) as [us [Hus Hall]].
  exists (set_reward_units us (initial_attributes name rr gr sd spec)).
  unfold __init__, _setup_reward_function. rewrite Hload. simpl.
  rewrite Hus. repeat split; [|done].
  symmetry. by eapply Forall2_length.
Qed.

Lemma init_builds_one_unit_per_entry_witness :
  ∃ rf, __init__ example_load_rew_fnc example_instantiate
          "example" 0.3%Q 0.3%Q 0.3%Q = Ok rf
        ∧ _rew_fnc_dict rf = example_spec
        ∧ length (_reward_units rf) = length example_spec
        ∧ Forall2 (built_from example_instantiate
                     (initial_attributes "example" 0.3%Q 0.3%Q 0.3%Q example_spec))
            example_spec (_reward_units rf).
Proof.
  apply (init_builds_one_unit_per_entry example_load_rew_fnc example_instantiate
           "example" 0.3%Q 0.3%Q 0.3%Q example_spec).
  - reflexivity.
  - repeat constructor.
    + exists (goal_distance_unit (-0.1)%Q). eexists. split; reflexivity.
    + exists safe_distance_unit. eexists. split; reflexivity.
Defined.

(** ** The episode reset *)

Lemma for_each_reset_unit (us : list RewardUnit) :
  ∀ (i : nat) (pre : list RewardUnit) (rf : RewardFunction),
    _reward_units rf = pre ++ us →
    length pre = i →
    for_each_unit reset_unit i us rf
    = (Ok tt,
       set_call_log (call_log rf ++ (ResetUnit <$> seq i (length us)))
         (set_reward_units (pre ++ (reset_state <$> us)) rf)).
Proof.
  induction us as [|u rest IH]; intros i pre rf Hunits Hlen.
  - simpl in *. unfold ret. f_equal. destruct rf; simpl in *.
    rewrite !app_nil_r in *. by subst.
  - cbn [for_each_unit]. unfold bind at 1.
    unfold reset_unit, log_event. unfold_m. cbn [_reward_units set_call_log].
    rewrite Hunits, insert_app_r_alt by lia.
    replace (i - length pre) with 0 by lia. cbn [insert list_insert].
    rewrite (IH (S i) (pre ++ [reset_state u])).
    + f_equal. destruct rf; simpl in *.
      by rewrite <- !app_assoc.
    + simpl. by rewrite <- app_assoc.
    + rewrite length_app. simpl. lia.
Qed.

(** C8.  The episode reset reads the goal radius from the parameter server
    (0.3 when it is not set) and hands it to the validating setter.  Below
    the minimum the domain error is raised and nothing else happens.
    Otherwise the radius is stored and [reset()] is called on the units at
    positions 0, 1, ... in that order, once each, and every unit ends up in
    the state its own reset produces. *)
Theorem reset_revalidates_then_resets_units
    (MIN : Q) (server : gmap string Q) (rf : RewardFunction) :
  let v := get_param server "/goal_radius" 0.3%Q in
  ((v < MIN)%Q → reset MIN server rf = (Err GoalRadiusError, rf))
  ∧ ((MIN <= v)%Q →
       reset MIN server rf
       = (Ok tt,
          set_call_log
            (call_log rf ++ (ResetUnit <$> seq 0 (length (_reward_units rf))))
            (set_reward_units (reset_state <$> _reward_units rf)
               (set_goal_radius v rf)))).
Proof.
  cbv zeta. unfold reset, goal_radius_setter. split; intros H.
  - apply Qlt_bool_true in H. unfold bind at 1. by rewrite H.
  - apply Qlt_bool_false in H. unfold bind at 1. rewrite H. unfold_m.
    by rewrite (for_each_reset_unit _ 0 []).
Qed.

Lemma reset_revalidates_then_resets_units_witness :
  reset example_MIN_GOAL_RADIUS {[ "/goal_radius" := 0.05%Q ]} example_rf
    = (Err GoalRadiusError, example_rf)
  ∧ reset example_MIN_GOAL_RADIUS ∅ example_rf
    = (Ok tt,
       set_call_log [ResetUnit 0; ResetUnit 1]
         (set_reward_units (reset_state <$> _reward_units example_rf)
            (set_goal_radius 0.3%Q example_rf))).
Proof.
  split.
  - apply (reset_revalidates_then_resets_units
             example_MIN_GOAL_RADIUS {[ "/goal_radius" := 0.05%Q ]} example_rf).
    reflexivity.
  - refine (proj2 (reset_revalidates_then_resets_units
                     example_MIN_GOAL_RADIUS ∅ example_rf) _ : _).
    vm_compute. discriminate.
Defined.

(** ** Attributes a computation does not assign *)

(** [preserves f m]: whatever [m] does, returning or raising, the
    observation [f] of the object is afterwards what it was before. *)
Definition preserves {A B} (f : RewardFunction → B) (m : M A) : Prop :=
  ∀ rf, f (m rf).2 = f rf.

Lemma preserves_ret {A B} (f : RewardFunction → B) (a : A) : preserves f (ret a).
Proof. by intros rf. Qed.

Lemma preserves_raise {A B} (f : RewardFunction → B) e :
  preserves f (raise e : M A).
Proof. by intros rf. Qed.

Lemma preserves_lift {A B} (f : RewardFunction → B) (r : result A) :
  preserves f (lift r).
Proof. by intros rf. Qed.

Lemma preserves_read {A B} (f : RewardFunction → B) (g : RewardFunction → A) :
  preserves f (read g).
Proof. by intros rf. Qed.

Lemma preserves_modify {B} (f : RewardFunction → B) g :
  (∀ rf, f (g rf) = f rf) → preserves f (modify g).
Proof. intros H rf. apply H. Qed.

Lemma preserves_bind {A A' B} (f : RewardFunction → B) (m : M A) (k : A → M A') :
  preserves f m → (∀ a, preserves f (k a)) → preserves f (bind m k).
Proof.
  intros Hm Hk rf. unfold bind. specialize (Hm rf).
  destruct (m rf) as [[a|e] rf1]; simpl in *; [|done].
  by rewrite Hk.
Qed.

Lemma preserves_getitem {B} (f : RewardFunction → B) key :
  preserves f (internal_state_getitem key).
Proof.
  intros rf. unfold internal_state_getitem.
  by destruct (_internal_state_info rf !! key).
Qed.

Lemma preserves_get_internal_state_info {B} (f : RewardFunction → B) key dflt :
  preserves f (get_internal_state_info key dflt).
Proof.
  unfold get_internal_state_info.
  apply preserves_bind; [apply preserves_getitem|]. intros v.
  apply preserves_bind; [apply preserves_lift|]. intros [|].
  - apply preserves_getitem.
  - apply preserves_ret.
Qed.

Lemma preserves_safe_dist_breached {B} (f : RewardFunction → B) :
  preserves f safe_dist_breached.
Proof.
  intros rf. unfold safe_dist_breached. by destruct (_safe_dist_breached rf).
Qed.

(** The script of a unit reaches reward, info and scratch state only. *)
Lemma preserves_run_unit {B} (f : RewardFunction → B) (p : UnitProg) :
  (∀ r rf, f (set_curr_reward r rf) = f rf) →
  (∀ d rf, f (set_info d rf) = f rf) →
  (∀ d rf, f (set_internal_state_info d rf) = f rf) →
  preserves f (run_unit p).
Proof.
  intros Hr Hi Hs.
  induction p as [st|e|v k IH|info k IH|key v k IH|key dflt k IH|k IH|k IH];
    cbn [run_unit].
  - apply preserves_ret.
  - apply preserves_raise.
  - apply preserves_bind; [|done]. apply preserves_modify. intros; apply Hr.
  - apply preserves_bind; [|done]. apply preserves_modify. intros; apply Hi.
  - apply preserves_bind; [|done]. apply preserves_modify. intros; apply Hs.
  - apply preserves_bind; [|done]. apply preserves_get_internal_state_info.
  - apply preserves_bind; [|done]. apply preserves_read.
  - apply preserves_bind; [|done]. apply preserves_read.
Qed.

Lemma preserves_for_each_unit {B} (f : RewardFunction → B) body us :
  (∀ i u, preserves f (body i u)) →
  ∀ i, preserves f (for_each_unit body i us).
Proof.
  intros Hbody. induction us as [|u rest IH]; intros i; cbn [for_each_unit].
  - apply preserves_ret.
  - apply preserves_bind; [apply Hbody | intros _; apply IH].
Qed.

Lemma preserves_call_unit {B} (f : RewardFunction → B) laser kwargs i u :
  (∀ r rf, f (set_curr_reward r rf) = f rf) →
  (∀ d rf, f (set_info d rf) = f rf) →
  (∀ d rf, f (set_internal_state_info d rf) = f rf) →
  (∀ l rf, f (set_call_log l rf) = f rf) →
  (∀ l rf, f (set_reward_units l rf) = f rf) →
  preserves f (call_unit laser kwargs i u).
Proof.
  intros Hr Hi Hs Hl Hu. unfold call_unit, log_event.
  apply preserves_bind; [apply preserves_modify; intros; apply Hl|]. intros _.
  apply preserves_bind; [by apply preserves_run_unit|]. intros st.
  apply preserves_modify. intros; apply Hu.
Qed.

Lemma preserves_calculate_reward {B} (f : RewardFunction → B) call :
  (∀ r rf, f (set_curr_reward r rf) = f rf) →
  (∀ d rf, f (set_info d rf) = f rf) →
  (∀ d rf, f (set_internal_state_info d rf) = f rf) →
  (∀ l rf, f (set_call_log l rf) = f rf) →
  (∀ l rf, f (set_reward_units l rf) = f rf) →
  preserves f (calculate_reward call).
Proof.
  intros Hr Hi Hs Hl Hu. unfold calculate_reward.
  destruct (call !! "laser_scan") as [laser|]; [|apply preserves_raise].
  apply preserves_bind; [apply preserves_read|]. intros us.
  apply preserves_for_each_unit. intros i u. unfold calculate_step.
  apply preserves_bind; [apply preserves_safe_dist_breached|]. intros flag.
  apply preserves_bind; [apply preserves_lift|]. intros breached.
  destruct (breached && _); [apply preserves_ret|].
  by apply preserves_call_unit.
Qed.

Lemma preserves_set_safe_dist_breached {B} (f : RewardFunction → B) :
  (∀ d rf, f (set_internal_state_info d rf) = f rf) →
  preserves f set_safe_dist_breached.
Proof.
  intros Hs. unfold set_safe_dist_breached.
  apply preserves_bind; [apply preserves_get_internal_state_info|]. intros m.
  apply preserves_bind; [apply preserves_read|]. intros safe.
  apply preserves_bind; [apply preserves_lift|]. intros b.
  apply preserves_modify. intros; apply Hs.
Qed.

Lemma preserves_update_internal_state_info {B} (f : RewardFunction → B)
    mdp laser cloud flag kwargs :
  (∀ d rf, f (set_internal_state_info d rf) = f rf) →
  preserves f (update_internal_state_info mdp laser cloud flag kwargs).
Proof.
  intros Hs. unfold update_internal_state_info, set_min_dist_laser.
  apply preserves_bind; [|intros _; by apply preserves_set_safe_dist_breached].
  apply preserves_bind; [apply preserves_lift|]. intros no_laser.
  apply preserves_bind.
  { destruct no_laser; [apply preserves_lift | apply preserves_ret]. }
  intros [|]; [apply preserves_raise|].
  apply preserves_bind; [apply preserves_lift|]. intros [|].
  - apply preserves_bind; [apply preserves_lift|]. intros m.
    apply preserves_modify. intros; apply Hs.
  - apply preserves_bind; [apply preserves_lift|]. intros m.
    apply preserves_modify. intros; apply Hs.
Qed.

Lemma preserves_reset_step {B} (f : RewardFunction → B) :
  (∀ r rf, f (set_curr_reward r rf) = f rf) →
  (∀ d rf, f (set_info d rf) = f rf) →
  (∀ d rf, f (set_internal_state_info d rf) = f rf) →
  preserves f _reset.
Proof.
  intros Hr Hi Hs. unfold _reset, reset_internal_state_info.
  apply preserves_bind; [apply preserves_modify; intros; apply Hr|]. intros _.
  apply preserves_bind; [apply preserves_modify; intros; apply Hi|]. intros _.
  apply preserves_modify. intros; apply Hs.
Qed.

Lemma preserves_get_reward {B} (f : RewardFunction → B) mdp call :
  (∀ r rf, f (set_curr_reward r rf) = f rf) →
  (∀ d rf, f (set_info d rf) = f rf) →
  (∀ d rf, f (set_internal_state_info d rf) = f rf) →
  (∀ l rf, f (set_call_log l rf) = f rf) →
  (∀ l rf, f (set_reward_units l rf) = f rf) →
  preserves f (get_reward mdp call).
Proof.
  intros Hr Hi Hs Hl Hu. unfold get_reward.
  apply preserves_bind; [by apply preserves_reset_step|]. intros _.
  apply preserves_bind; [by apply preserves_update_internal_state_info|].
  intros _.
  apply preserves_bind; [by apply preserves_calculate_reward|]. intros _.
  apply preserves_bind; [apply preserves_read|]. intros r.
  apply preserves_bind; [apply preserves_read|]. intros i.
  apply preserves_ret.
Qed.

Lemma preserves_reset_episode {B} (f : RewardFunction → B) MIN server :
  (∀ v rf, f (set_goal_radius v rf) = f rf) →
  (∀ l rf, f (set_call_log l rf) = f rf) →
  (∀ l rf, f (set_reward_units l rf) = f rf) →
  preserves f (reset MIN server).
Proof.
  intros Hg Hl Hu. unfold reset, goal_radius_setter.
  apply preserves_bind.
  { destruct (Qlt_bool _ _); [apply preserves_raise|].
    apply preserves_modify. intros; apply Hg. }
  intros _. apply preserves_bind; [apply preserves_read|]. intros us.
  apply preserves_for_each_unit. intros i u. unfold reset_unit, log_event.
  apply preserves_bind; [apply preserves_modify; intros; apply Hl|]. intros _.
  apply preserves_modify. intros; apply Hu.
Qed.

(** The attribute behind the property [safe_dist_breached] is assigned
    neither by the constructor nor by a step or an episode reset. *)
Lemma init_leaves_flag_unassigned load inst name rr gr sd rf :
  __init__ load inst name rr gr sd = Ok rf → _safe_dist_breached rf = None.
Proof.
  unfold __init__. destruct (load name) as [spec|]; [|done].
  destruct (_setup_reward_function _ _) as [us|]; [|done].
  by intros [= <-].
Qed.

Lemma get_reward_leaves_flag mdp call :
  preserves _safe_dist_breached (get_reward mdp call).
Proof. by apply preserves_get_reward. Qed.

Lemma reset_leaves_flag MIN server :
  preserves _safe_dist_breached (reset MIN server).
Proof. by apply preserves_reset_episode. Qed.

Lemma calculate_reward_leaves_flag call :
  preserves _safe_dist_breached (calculate_reward call).
Proof. by apply preserves_calculate_reward. Qed.

(** ** Evaluating the units *)

Lemma calculate_reward_needs_laser_scan call rf :
  call !! "laser_scan" = None →
  calculate_reward call rf = (Err (TypeError "laser_scan"), rf).
Proof. intros H. unfold calculate_reward. by rewrite H. Qed.

Lemma calculate_step_unassigned laser kwargs i u rf :
  _safe_dist_breached rf = None →
  calculate_step laser kwargs i u rf
  = (Err (AttributeError "_safe_dist_breached"), rf).
Proof.
  intros H. unfold calculate_step, safe_dist_breached, bind. by rewrite H.
Qed.

(** With the attribute unassigned the loop stops at its first unit. *)
Lemma calculate_reward_unassigned_flag call laser u us rf :
  call !! "laser_scan" = Some laser →
  _safe_dist_breached rf = None →
  _reward_units rf = u :: us →
  calculate_reward call rf = (Err (AttributeError "_safe_dist_breached"), rf).
Proof.
  intros Hcall Hflag Hus. unfold calculate_reward. rewrite Hcall.
  unfold bind at 1, read. rewrite Hus. cbn [for_each_unit].
  unfold bind. by rewrite calculate_step_unassigned.
Qed.

Lemma calculate_step_skips laser kwargs i u rf flag :
  _safe_dist_breached rf = Some flag →
  py_bool flag = Ok true →
  on_safe_dist_violation u = false →
  calculate_step laser kwargs i u rf = (Ok tt, rf).
Proof.
  intros Hflag Hb Hu. unfold calculate_step, safe_dist_breached. unfold_m.
  by rewrite Hflag, Hb, Hu.
Qed.

Lemma calculate_step_calls laser kwargs i u rf flag b :
  _safe_dist_breached rf = Some flag →
  py_bool flag = Ok b →
  b && negb (on_safe_dist_violation u) = false →
  calculate_step laser kwargs i u rf = call_unit laser kwargs i u rf.
Proof.
  intros Hflag Hb Hrun. unfold calculate_step, safe_dist_breached. unfold_m.
  by rewrite Hflag, Hb, Hrun.
Qed.

(** A call is logged once, whatever the unit then does. *)
Lemma call_unit_log laser kwargs i u rf :
  call_log (call_unit laser kwargs i u rf).2
  = call_log rf ++ [Called i laser kwargs].
Proof.
  unfold call_unit. unfold bind at 1. unfold log_event, modify.
  set (rf1 := set_call_log _ rf).
  assert (Hrest : preserves call_log
            (let* st := run_unit (unit_call u (unit_state u) laser kwargs) in
             modify (λ rf, set_reward_units
                             (<[i := set_unit_state st u]> (_reward_units rf)) rf))).
  { apply preserves_bind; [by apply preserves_run_unit|].
    intros st. by apply preserves_modify. }
  by rewrite Hrest.
Qed.

Lemma for_each_calculate_log laser kwargs flag b (us : list RewardUnit) :
  py_bool flag = Ok b →
  ∀ i rf,
    _safe_dist_breached rf = Some flag →
    (for_each_unit (calculate_step laser kwargs) i us rf).1 = Ok tt →
    call_log (for_each_unit (calculate_step laser kwargs) i us rf).2
    = call_log rf ++ expected_calls b laser kwargs i us.
Proof.
  intros Hb. induction us as [|u rest IH]; intros i rf Hflag Hok.
  - simpl. by rewrite app_nil_r.
  - cbn [for_each_unit expected_calls] in *. unfold bind in *.
    destruct (b && negb (on_safe_dist_violation u)) eqn:Hrun.
    + apply andb_true_iff in Hrun as [-> Hu]. apply negb_true_iff in Hu.
      rewrite (calculate_step_skips _ _ _ _ _ flag) in * by done.
      by apply IH.
    + rewrite (calculate_step_calls _ _ _ _ _ flag b) in * by done.
      pose proof (call_unit_log laser kwargs i u rf) as Hlog.
      assert (Hkeep : _safe_dist_breached (call_unit laser kwargs i u rf).2
                      = Some flag).
      { rewrite <- Hflag. by apply preserves_call_unit. }
      destruct (call_unit laser kwargs i u rf) as [[[]|e] rf1]; [|done].
      simpl in *. rewrite IH by done. by rewrite Hlog, <- app_assoc.
Qed.

(** When the attribute behind the property is assigned, the loop follows
    the skip rule: a breach-exempt unit or a clear flag means a call, a
    set flag and a non-exempt unit mean none, and the calls go out in the
    order of the unit list with the scan and the remaining keyword
    arguments. *)
Lemma calculate_reward_skip_rule call laser flag b rf :
  call !! "laser_scan" = Some laser →
  _safe_dist_breached rf = Some flag →
  py_bool flag = Ok b →
  (calculate_reward call rf).1 = Ok tt →
  call_log (calculate_reward call rf).2
  = call_log rf
    ++ expected_calls b laser (delete "laser_scan" call) 0 (_reward_units rf).
Proof.
  intros Hcall Hflag Hb. unfold calculate_reward. rewrite Hcall.
  unfold bind, read. intros Hok.
  by apply (for_each_calculate_log _ _ flag).
Qed.

(** ** A whole step *)

Lemma get_reward_kwargs_without_laser_scan (call : dict) :
  delete "laser_scan" (delete "point_cloud" (delete "from_aggregate_obs" call))
    !! "laser_scan" = None.
Proof. apply lookup_delete_eq. Qed.

(** [get_reward] hands [calculate_reward] the keyword arguments left after
    its own parameters were bound, so the scan is never among them: a call
    of [get_reward] that gets past the refresh raises there. *)
Lemma get_reward_unfold mdp call rf :
  get_reward mdp call rf
  = match update_internal_state_info mdp
            (default VNone (call !! "laser_scan"))
            (default VNone (call !! "point_cloud"))
            (default (VBool false) (call !! "from_aggregate_obs"))
            (delete "laser_scan"
               (delete "point_cloud" (delete "from_aggregate_obs" call)))
            (set_internal_state_info ((λ _, VNone) <$> _internal_state_info rf)
               (set_info ∅ (set_curr_reward 0%Q rf)))
    with
    | (Ok _, rf1) => (Err (TypeError "laser_scan"), rf1)
    | (Err e, rf1) => (Err e, rf1)
    end.
Proof.
  unfold get_reward, bind. rewrite reset_step_result.
  destruct (update_internal_state_info _ _ _ _ _ _) as [[[]|e] rf1]; [|done].
  by rewrite calculate_reward_needs_laser_scan
    by apply get_reward_kwargs_without_laser_scan.
Qed.

(** Every call of [get_reward] raises, no unit is called, and the reward
    and the info stay at their reset values. *)
Lemma get_reward_outcome mdp call rf :
  (∃ e, (get_reward mdp call rf).1 = Err e)
  ∧ _curr_reward (get_reward mdp call rf).2 = 0%Q
  ∧ _info (get_reward mdp call rf).2 = ∅
  ∧ call_log (get_reward mdp call rf).2 = call_log rf
  ∧ _reward_units (get_reward mdp call rf).2 = _reward_units rf.
Proof.
  rewrite get_reward_unfold.
  set (rf0 := set_internal_state_info _ _).
  set (laser := default VNone _). set (cloud := default VNone _).
  set (flag := default (VBool false) _). set (kwargs := delete _ _).
  pose proof (preserves_update_internal_state_info _curr_reward
                mdp laser cloud flag kwargs (λ _ _, eq_refl) rf0) as Hr.
  pose proof (preserves_update_internal_state_info _info
                mdp laser cloud flag kwargs (λ _ _, eq_refl) rf0) as Hi.
  pose proof (preserves_update_internal_state_info call_log
                mdp laser cloud flag kwargs (λ _ _, eq_refl) rf0) as Hl.
  pose proof (preserves_update_internal_state_info _reward_units
                mdp laser cloud flag kwargs (λ _ _, eq_refl) rf0) as Hu.
  destruct (update_internal_state_info mdp laser cloud flag kwargs rf0)
    as [[[]|e] rf1]; simpl in *; eauto 10.
Qed.

(** ** Refreshing the shared scratch state *)

Lemma set_min_dist_laser_both_falsy mdp laser cloud flag rf :
  py_bool laser = Ok false →
  py_bool cloud = Ok false →
  set_min_dist_laser mdp laser cloud flag rf = (Err MissingInputError, rf).
Proof.
  intros Hl Hc. unfold set_min_dist_laser, py_not. unfold_m.
  by rewrite Hl, Hc.
Qed.

Lemma set_min_dist_laser_multi_beam mdp x y a cloud flag rf :
  set_min_dist_laser mdp (VArray (x :: y :: a)) cloud flag rf
  = (Err AmbiguousTruthValue, rf).
Proof. reflexivity. Qed.

Lemma get_reward_without_input mdp call rf :
  call !! "laser_scan" = None →
  call !! "point_cloud" = None →
  (get_reward mdp call rf).1 = Err MissingInputError.
Proof.
  intros Hl Hc. rewrite get_reward_unfold, Hl, Hc.
  unfold update_internal_state_info. unfold bind at 1.
  by rewrite set_min_dist_laser_both_falsy.
Qed.

Lemma set_safe_dist_breached_falsy_minimum v rf :
  _internal_state_info rf !! "min_dist_laser" = Some v →
  py_bool v = Ok false →
  set_safe_dist_breached rf = (Err (TypeError "<="), rf).
Proof.
  intros Hk Hv. unfold set_safe_dist_breached. unfold bind at 1.
  by rewrite (get_internal_state_info_falsy _ _ v).
Qed.

(** On a scan of one nonzero beam the refresh does what the specification
    says: it publishes the beam as the minimum and the comparison with the
    safe distance as the breach flag. *)
Lemma refresh_single_beam mdp x cloud kwargs rf :
  Qnonzero x = true →
  update_internal_state_info mdp (VArray [x]) cloud (VBool false) kwargs rf
  = (Ok tt,
     set_internal_state_info
       (<[ "safe_dist_breached" := VBool (Qle_bool x (_safe_dist rf)) ]>
          (<[ "min_dist_laser" := VFloat x ]> (_internal_state_info rf))) rf).
Proof.
  intros Hx. unfold update_internal_state_info, set_min_dist_laser, py_not.
  unfold bind at 1. simpl. rewrite Hx. simpl.
  unfold set_safe_dist_breached. unfold bind at 1.
  rewrite (get_internal_state_info_truthy _ _ (VFloat x));
    [|apply lookup_insert_eq|by simpl; rewrite Hx].
  by destruct rf.
Qed.

(** The refresh publishes two keys and touches no other. *)
Lemma set_min_dist_laser_other_keys mdp laser cloud flag key rf :
  key ≠ "min_dist_laser" →
  _internal_state_info (set_min_dist_laser mdp laser cloud flag rf).2 !! key
  = _internal_state_info rf !! key.
Proof.
  intros Hkey. unfold set_min_dist_laser. unfold_m.
  destruct (py_not laser) as [[|]|]; try done.
  - destruct (py_not cloud) as [[|]|]; try done.
    destruct (py_not flag) as [[|]|]; try done.
    + destruct (py_min laser); [|done]. cbn. by rewrite lookup_insert_ne.
    + destruct (mdp cloud); [|done]. cbn. by rewrite lookup_insert_ne.
  - destruct (py_not flag) as [[|]|]; try done.
    + destruct (py_min laser); [|done]. cbn. by rewrite lookup_insert_ne.
    + destruct (mdp cloud); [|done]. cbn. by rewrite lookup_insert_ne.
Qed.

Lemma set_safe_dist_breached_other_keys key rf :
  key ≠ "safe_dist_breached" →
  _internal_state_info (set_safe_dist_breached rf).2 !! key
  = _internal_state_info rf !! key.
Proof.
  intros Hkey. unfold set_safe_dist_breached. unfold bind at 1.
  pose proof (preserves_get_internal_state_info
                (λ rf, _internal_state_info rf !! key)
                "min_dist_laser" VNone rf) as Hget.
  destruct (get_internal_state_info "min_dist_laser" VNone rf)
    as [[m|e] rf1]; simpl in *; [|done].
  unfold_m. destruct (py_le m (_safe_dist rf1)); [|done].
  cbn. by rewrite lookup_insert_ne.
Qed.

(** A key that no unit has published stays absent over a step. *)
Lemma get_reward_keeps_absent_keys mdp call key rf :
  key ≠ "min_dist_laser" →
  key ≠ "safe_dist_breached" →
  _internal_state_info rf !! key = None →
  _internal_state_info (get_reward mdp call rf).2 !! key = None.
Proof.
  intros Hmin Hsafe Habsent. rewrite get_reward_unfold.
  set (rf0 := set_internal_state_info _ _).
  assert (Hrf0 : _internal_state_info rf0 !! key = None).
  { subst rf0. cbn. by rewrite lookup_fmap, Habsent. }
  assert (Hstep : ∀ laser cloud flag kwargs,
            _internal_state_info
              (update_internal_state_info mdp laser cloud flag kwargs rf0).2 !! key
            = None).
  { intros laser cloud flag kwargs. unfold update_internal_state_info, bind.
    pose proof (set_min_dist_laser_other_keys mdp laser cloud flag key rf0 Hmin)
      as H1.
    destruct (set_min_dist_laser mdp laser cloud flag rf0) as [[[]|e] rf1];
      simpl in *; [|congruence].
    rewrite set_safe_dist_breached_other_keys by done. congruence. }
  specialize (Hstep (default VNone (call !! "laser_scan"))
                    (default VNone (call !! "point_cloud"))
                    (default (VBool false) (call !! "from_aggregate_obs"))
                    (delete "laser_scan"
                       (delete "point_cloud" (delete "from_aggregate_obs" call)))).
  by destruct (update_internal_state_info _ _ _ _ _ _) as [[[]|e] rf1].
Qed.

(** ** The worked example, evaluated *)

Lemma example_rf_constructed :
  __init__ example_load_rew_fnc example_instantiate "example" 0.3%Q 0.3%Q 0.3%Q
  = Ok example_rf.
Proof. reflexivity. Qed.

(** C1, which the code does not meet.  On the engine of the worked example
    a refresh on a clear one-beam scan publishes the breach flag [False],
    so the skip rule asks for a call of both units, in order.  The loop of
    [calculate_reward] however reads the property [safe_dist_breached],
    whose attribute nothing has assigned: it raises at the first unit and
    calls none. *)
Theorem fresh_engine_calls_no_unit :
  let rf1 :=
    (update_internal_state_info example_min_distance_from_pointcloud
       (VArray [1%Q]) VNone (VBool false) ∅ example_rf).2 in
  let call :=
    <[ "distance_to_goal" := VFloat 2%Q ]> {[ "laser_scan" := VArray [1%Q] ]} in
  _internal_state_info rf1 !! "safe_dist_breached" = Some (VBool false)
  ∧ _safe_dist_breached rf1 = None
  ∧ (calculate_reward call rf1).1 = Err (AttributeError "_safe_dist_breached")
  ∧ call_log (calculate_reward call rf1).2 = []
  ∧ expected_calls false (VArray [1%Q]) (delete "laser_scan" call) 0
      (_reward_units rf1)
    = [Called 0 (VArray [1%Q]) {[ "distance_to_goal" := VFloat 2%Q ]};
       Called 1 (VArray [1%Q]) {[ "distance_to_goal" := VFloat 2%Q ]}].
Proof. repeat split; vm_compute; reflexivity. Qed.

(** C2, which the code does not meet.  A scan is supplied, of one beam
    reading 0.0 or of no beam at all, and [get_reward] still raises the
    missing-input error: the guard takes the truth value of the array.
    The accumulated reward is 0 when the error is raised. *)
Theorem supplied_scan_reported_missing :
  let zero :=
    get_reward example_min_distance_from_pointcloud
      {[ "laser_scan" := VArray [0%Q] ]} example_rf in
  let empty :=
    get_reward example_min_distance_from_pointcloud
      {[ "laser_scan" := VArray [] ]} example_rf in
  zero.1 = Err MissingInputError ∧ _curr_reward zero.2 = 0%Q
  ∧ empty.1 = Err MissingInputError ∧ _curr_reward empty.2 = 0%Q.
Proof. repeat split; vm_compute; reflexivity. Qed.

(** C3, which the code does not meet.  On a scan of two beams the refresh
    raises on the truth value of the array and publishes nothing.  On a
    scan whose only beam reads 0.0, accompanied by a point cloud, the
    minimum 0.0 is published, read back as unset because it is falsy, and
    the comparison with the safe distance raises: no breach flag is
    published. *)
Theorem refresh_fails_on_supplied_scans :
  let two_beams :=
    update_internal_state_info example_min_distance_from_pointcloud
      (VArray [0.7%Q; 0.2%Q]) VNone (VBool false) ∅ example_rf in
  let at_obstacle :=
    update_internal_state_info example_min_distance_from_pointcloud
      (VArray [0%Q]) (VCloud [ {| px := 1; py := 0; pz := 0; pindex := 0 |} ])
      (VBool false) ∅ example_rf in
  two_beams.1 = Err AmbiguousTruthValue
  ∧ _internal_state_info two_beams.2 = ∅
  ∧ at_obstacle.1 = Err (TypeError "<=")
  ∧ _internal_state_info at_obstacle.2 !! "min_dist_laser" = Some (VFloat 0%Q)
  ∧ _internal_state_info at_obstacle.2 !! "safe_dist_breached" = None.
Proof. repeat split; vm_compute; reflexivity. Qed.

(** C5, which the code does not meet.  The step of the end-to-end example
    returns no reward.  With the two-beam scan [get_reward] raises in the
    refresh.  With a one-beam scan that reads 0.2 the refresh publishes the
    breach, then [calculate_reward] is called without the scan and raises;
    called with the scan on the state reached, it raises on the unassigned
    attribute.  Only on an engine whose attribute has been assigned from
    outside does the loop produce the expected -5, calling the
    [safe_distance] unit alone. *)
Theorem end_to_end_example_raises :
  let mdp := example_min_distance_from_pointcloud in
  let out := get_reward mdp example_call_single_beam example_rf in
  (get_reward mdp example_call example_rf).1 = Err AmbiguousTruthValue
  ∧ out.1 = Err (TypeError "laser_scan")
  ∧ _internal_state_info out.2 !! "safe_dist_breached" = Some (VBool true)
  ∧ (calculate_reward example_call_single_beam out.2).1
    = Err (AttributeError "_safe_dist_breached")
  ∧ (calculate_reward example_call_single_beam example_rf_flagged).1 = Ok tt
  ∧ _curr_reward (calculate_reward example_call_single_beam example_rf_flagged).2
    = (-5)%Q
  ∧ call_log (calculate_reward example_call_single_beam example_rf_flagged).2
    = [Called 1 (VArray [0.2%Q]) {[ "distance_to_goal" := VFloat 2%Q ]}].
Proof. repeat split; vm_compute; reflexivity. Qed.

(** * Further properties of the engine *)

(** ** Relations that every method respects *)

(** The methods change the object through seven writes only: the reward,
    the info, one key of the scratch state, the call log, the unit list
    and, once validated, the goal radius.  A preorder that contains these
    writes contains every method. *)
Section Closure.

Variable R : relation RewardFunction.
Variable MIN : Q.
Hypothesis R_refl : ∀ rf, R rf rf.
Hypothesis R_trans : ∀ a b c, R a b → R b c → R a c.
Hypothesis R_reward : ∀ r rf, R rf (set_curr_reward r rf).
Hypothesis R_info : ∀ d rf, R rf (set_info d rf).
Hypothesis R_publish : ∀ k v rf,
  R rf (set_internal_state_info (<[k := v]> (_internal_state_info rf)) rf).
Hypothesis R_log : ∀ e rf, R rf (set_call_log (call_log rf ++ [e]) rf).
Hypothesis R_units : ∀ us rf, R rf (set_reward_units us rf).
Hypothesis R_radius : ∀ v rf, (MIN <= v)%Q → R rf (set_goal_radius v rf).

Lemma respects_ret {A} (a : A) : respects R (ret a).
Proof. intros rf. apply R_refl. Qed.

Lemma respects_raise {A} e : respects R (raise e : M A).
Proof. intros rf. apply R_refl. Qed.

Lemma respects_lift {A} (r : result A) : respects R (lift r).
Proof. intros rf. apply R_refl. Qed.

Lemma respects_read {A} (g : RewardFunction → A) : respects R (read g).
Proof. intros rf. apply R_refl. Qed.

Lemma respects_modify g : (∀ rf, R rf (g rf)) → respects R (modify g).
Proof. intros H rf. apply H. Qed.

Lemma respects_bind {A B} (m : M A) (k : A → M B) :
  respects R m → (∀ a, respects R (k a)) → respects R (bind m k).
Proof.
  intros Hm Hk rf. unfold bind. specialize (Hm rf).
  destruct (m rf) as [[a|e] rf1]; simpl in *; [|done].
  eapply R_trans; [exact Hm | apply Hk].
Qed.

Lemma respects_getitem key : respects R (internal_state_getitem key).
Proof.
  intros rf. unfold internal_state_getitem.
  destruct (_internal_state_info rf !! key); apply R_refl.
Qed.

Lemma respects_get_internal_state_info key dflt :
  respects R (get_internal_state_info key dflt).
Proof.
  unfold get_internal_state_info.
  apply respects_bind; [apply respects_getitem|]. intros v.
  apply respects_bind; [apply respects_lift|]. intros [|].
  - apply respects_getitem.
  - apply respects_ret.
Qed.

Lemma respects_add_internal_state_info key v :
  respects R (add_internal_state_info key v).
Proof. apply respects_modify. intros rf. apply R_publish. Qed.

Lemma respects_assign_none (keys : list string) :
  ∀ rf, R rf (set_internal_state_info
                (foldl (λ d key, <[key := VNone]> d) (_internal_state_info rf) keys)
                rf).
Proof.
  induction keys as [|key keys IH]; intros rf; cbn [foldl].
  - rewrite set_internal_state_info_same. apply R_refl.
  - eapply R_trans; [apply (R_publish key VNone)|].
    exact (IH (set_internal_state_info
                 (<[key := VNone]> (_internal_state_info rf)) rf)).
Qed.

Lemma respects_reset_step : respects R _reset.
Proof.
  unfold _reset, reset_internal_state_info.
  apply respects_bind; [apply respects_modify, R_reward|]. intros _.
  apply respects_bind; [apply respects_modify, R_info|]. intros _.
  apply respects_modify. intros rf. apply respects_assign_none.
Qed.

Lemma respects_run_unit (p : UnitProg) : respects R (run_unit p).
Proof.
  induction p as [st|e|v k IH|info k IH|key v k IH|key dflt k IH|k IH|k IH];
    cbn [run_unit].
  - apply respects_ret.
  - apply respects_raise.
  - apply respects_bind; [|done]. apply respects_modify. intros; apply R_reward.
  - apply respects_bind; [|done]. apply respects_modify. intros; apply R_info.
  - apply respects_bind; [|done]. apply respects_add_internal_state_info.
  - apply respects_bind; [|done]. apply respects_get_internal_state_info.
  - apply respects_bind; [|done]. apply respects_read.
  - apply respects_bind; [|done]. apply respects_read.
Qed.

Lemma respects_for_each_unit body us :
  (∀ i u, respects R (body i u)) → ∀ i, respects R (for_each_unit body i us).
Proof.
  intros Hbody. induction us as [|u rest IH]; intros i; cbn [for_each_unit].
  - apply respects_ret.
  - apply respects_bind; [apply Hbody | intros _; apply IH].
Qed.

Lemma respects_calculate_reward call : respects R (calculate_reward call).
Proof.
  unfold calculate_reward.
  destruct (call !! "laser_scan") as [laser|]; [|apply respects_raise].
  apply respects_bind; [apply respects_read|]. intros us.
  apply respects_for_each_unit. intros i u. unfold calculate_step.
  apply respects_bind.
  { intros rf. unfold safe_dist_breached.
    destruct (_safe_dist_breached rf); apply R_refl. }
  intros flag. apply respects_bind; [apply respects_lift|]. intros breached.
  destruct (breached && _); [apply respects_ret|].
  unfold call_unit, log_event.
  apply respects_bind; [apply respects_modify; intros; apply R_log|]. intros _.
  apply respects_bind; [apply respects_run_unit|]. intros st.
  apply respects_modify. intros; apply R_units.
Qed.

Lemma respects_update_internal_state_info mdp laser cloud flag kwargs :
  respects R (update_internal_state_info mdp laser cloud flag kwargs).
Proof.
  unfold update_internal_state_info, set_min_dist_laser, set_safe_dist_breached.
  apply respects_bind.
  - apply respects_bind; [apply respects_lift|]. intros no_laser.
    apply respects_bind.
    { destruct no_laser; [apply respects_lift | apply respects_ret]. }
    intros [|]; [apply respects_raise|].
    apply respects_bind; [apply respects_lift|]. intros [|].
    + apply respects_bind; [apply respects_lift|]. intros m.
      apply respects_add_internal_state_info.
    + apply respects_bind; [apply respects_lift|]. intros m.
      apply respects_add_internal_state_info.
  - intros _.
    apply respects_bind; [apply respects_get_internal_state_info|]. intros m.
    apply respects_bind; [apply respects_read|]. intros safe.
    apply respects_bind; [apply respects_lift|]. intros b.
    apply respects_add_internal_state_info.
Qed.

Lemma respects_get_reward mdp call : respects R (get_reward mdp call).
Proof.
  unfold get_reward.
  apply respects_bind; [apply respects_reset_step|]. intros _.
  apply respects_bind; [apply respects_update_internal_state_info|]. intros _.
  apply respects_bind; [apply respects_calculate_reward|]. intros _.
  apply respects_bind; [apply respects_read|]. intros r.
  apply respects_bind; [apply respects_read|]. intros i.
  apply respects_ret.
Qed.

Lemma respects_goal_radius_setter v : respects R (goal_radius_setter MIN v).
Proof.
  unfold goal_radius_setter.
  destruct (Qlt_bool v MIN) eqn:Hv; [apply respects_raise|].
  apply respects_modify. intros rf. by apply R_radius, Qlt_bool_false.
Qed.

Lemma respects_reset_episode server : respects R (reset MIN server).
Proof.
  unfold reset.
  apply respects_bind; [apply respects_goal_radius_setter|]. intros _.
  apply respects_bind; [apply respects_read|]. intros us.
  apply respects_for_each_unit. intros i u. unfold reset_unit, log_event.
  apply respects_bind; [apply respects_modify; intros; apply R_log|]. intros _.
  apply respects_modify. intros; apply R_units.
Qed.

Lemma run_method_respects mdp c rf : R rf (run_method MIN mdp c rf).
Proof.
  destruct c; cbn [run_method].
  - apply respects_get_reward.
  - apply respects_calculate_reward.
  - apply respects_update_internal_state_info.
  - apply respects_reset_episode.
  - apply respects_goal_radius_setter.
  - apply R_reward.
  - apply R_info.
  - apply R_publish.
  - apply respects_get_internal_state_info.
Qed.

Lemma run_methods_respects mdp cs : ∀ rf, R rf (run_methods MIN mdp cs rf).
Proof.
  unfold run_methods. induction cs as [|c cs IH]; intros rf; cbn [foldl].
  - apply R_refl.
  - eapply R_trans; [apply (run_method_respects mdp c)|apply IH].
Qed.

End Closure.

(** ** What no sequence of calls changes *)

(** X5.  Whatever methods are called on an engine, in whatever order and
    whether they return or raise, its name, robot radius, safe distance and
    unit specification stay what they were, and so does the attribute
    behind the property [safe_dist_breached]: no method assigns it. *)
Theorem configuration_never_changes
    (MIN : Q) (mdp : value → result value)
    (cs : list method_call) (rf : RewardFunction) :
  let rf' := run_methods MIN mdp cs rf in
  _rew_func_name rf' = _rew_func_name rf
  ∧ _robot_radius rf' = _robot_radius rf
  ∧ _safe_dist rf' = _safe_dist rf
  ∧ _rew_fnc_dict rf' = _rew_fnc_dict rf
  ∧ _safe_dist_breached rf' = _safe_dist_breached rf.
Proof.
  cbv zeta.
  apply (run_methods_respects
           (λ a b, _rew_func_name b = _rew_func_name a
                   ∧ _robot_radius b = _robot_radius a
                   ∧ _safe_dist b = _safe_dist a
                   ∧ _rew_fnc_dict b = _rew_fnc_dict a
                   ∧ _safe_dist_breached b = _safe_dist_breached a) MIN);
    try done.
  intros a b c (?&?&?&?&?) (?&?&?&?&?). repeat split; congruence.
Qed.





(** X9.  No call removes a key from the shared scratch state: a key that
    is present stays present, under every sequence of calls. *)
Theorem scratch_keys_are_never_removed
    (MIN : Q) (mdp : value → result value)
    (cs : list method_call) (rf : RewardFunction) :
  dom (_internal_state_info rf)
  ⊆ dom (_internal_state_info (run_methods MIN mdp cs rf)).
Proof.
  apply (run_methods_respects
           (λ a b, dom (_internal_state_info a) ⊆ dom (_internal_state_info b))
           MIN); try done.
  - intros a b c Hab Hbc. set_solver.
  - intros k v a. cbn. rewrite dom_insert_L. set_solver.
Qed.

(** X16.  An episode reset, whether it returns or raises, leaves the state
    of the step alone: the accumulated reward, the accumulated info and the
    shared scratch state are what they were. *)
Theorem episode_reset_leaves_step_state
    (MIN : Q) (server : gmap string Q) (rf : RewardFunction) :
  _curr_reward (reset MIN server rf).2 = _curr_reward rf
  ∧ _info (reset MIN server rf).2 = _info rf
  ∧ _internal_state_info (reset MIN server rf).2 = _internal_state_info rf.
Proof.
  repeat split; by apply preserves_reset_episode.
Qed.

(** X1.  [get_reward] never returns a reward.  It raises on every call:
    the error of the refresh when the refresh fails, and otherwise the
    TypeError of calling [calculate_reward] without its scan.  No unit is
    called, the reward and the info are left at their reset values, and
    the units and the goal radius are untouched. *)
Theorem get_reward_never_returns
    (mdp : value → result value) (call : dict) (rf : RewardFunction) :
  let refresh :=
    update_internal_state_info mdp
      (default VNone (call !! "laser_scan"))
      (default VNone (call !! "point_cloud"))
      (default (VBool false) (call !! "from_aggregate_obs"))
      (delete "laser_scan"
         (delete "point_cloud" (delete "from_aggregate_obs" call)))
      (_reset rf).2 in
  (get_reward mdp call rf).1
    = match refresh.1 with
      | Ok _ => Err (TypeError "laser_scan")
      | Err e => Err e
      end
  ∧ _curr_reward (get_reward mdp call rf).2 = 0%Q
  ∧ _info (get_reward mdp call rf).2 = ∅
  ∧ call_log (get_reward mdp call rf).2 = call_log rf
  ∧ _reward_units (get_reward mdp call rf).2 = _reward_units rf
  ∧ _goal_radius (get_reward mdp call rf).2 = _goal_radius rf.
Proof.
  cbv zeta. split.
  - rewrite get_reward_unfold, reset_step_result. cbn [snd].
    by destruct (update_internal_state_info _ _ _ _ _ _) as [[[]|e] rf1].
  - destruct (get_reward_outcome mdp call rf) as (_ & Hr & Hi & Hl & Hu).
    repeat split; try done. by apply preserves_get_reward.
Qed.

(** ** The loop over the units *)

(** X2.  On an object whose attribute behind [safe_dist_breached] is
    unassigned, [calculate_reward] called with a scan returns normally only
    when there is no unit at all; with one unit or more it raises the
    AttributeError at the first unit.  Either way the object is left as it
    was. *)
Theorem calculate_reward_needs_assigned_flag
    (call : dict) (laser : value) (rf : RewardFunction) :
  call !! "laser_scan" = Some laser →
  _safe_dist_breached rf = None →
  calculate_reward call rf
  = (match _reward_units rf with
     | [] => Ok tt
     | _ :: _ => Err (AttributeError "_safe_dist_breached")
     end, rf).
Proof.
  intros Hcall Hflag. destruct (_reward_units rf) as [|u us] eqn:Hus.
  - unfold calculate_reward. rewrite Hcall. unfold bind, read. by rewrite Hus.
  - by apply (calculate_reward_unassigned_flag _ laser u us).
Qed.

Lemma calculate_reward_needs_assigned_flag_witness :
  calculate_reward example_call example_rf
    = (Err (AttributeError "_safe_dist_breached"), example_rf)
  ∧ calculate_reward example_call (set_reward_units [] example_rf)
    = (Ok tt, set_reward_units [] example_rf).
Proof.
  split.
  - apply (calculate_reward_needs_assigned_flag example_call
             (VArray [0.7%Q; 0.2%Q]) example_rf); reflexivity.
  - apply (calculate_reward_needs_assigned_flag example_call
             (VArray [0.7%Q; 0.2%Q]) (set_reward_units [] example_rf));
      reflexivity.
Defined.

Lemma elem_of_expected_calls b laser kwargs (us : list RewardUnit) :
  ∀ i j,
    Called j laser kwargs ∈ expected_calls b laser kwargs i us
    ↔ ∃ u, i ≤ j ∧ us !! (j - i) = Some u
           ∧ b && negb (on_safe_dist_violation u) = false.
Proof.
  induction us as [|u rest IH]; intros i j; cbn [expected_calls].
  - split; [by intros ?%elem_of_nil | by intros (u & _ & ? & _)].
  - rewrite elem_of_app, IH. split.
    + intros [Hhere|(u' & Hle & Hu' & Hrun)].
      * destruct (b && negb (on_safe_dist_violation u)) eqn:Hrun;
          [by apply elem_of_nil in Hhere|].
        apply list_elem_of_singleton in Hhere. injection Hhere as ->.
        exists u. rewrite Nat.sub_diag. done.
      * exists u'. split; [lia|]. split; [|done].
        replace (j - i) with (S (j - S i)) by lia. done.
    + intros (u' & Hle & Hu' & Hrun).
      destruct (decide (j = i)) as [->|Hne].
      * rewrite Nat.sub_diag in Hu'. injection Hu' as ->.
        left. rewrite Hrun. apply list_elem_of_singleton. done.
      * right. exists u'. split; [lia|]. split; [|done].
        replace (j - i) with (S (j - S i)) in Hu' by lia. done.
Qed.

Lemma for_each_calculate_calls laser kwargs flag b (us : list RewardUnit) :
  py_bool flag = Ok b →
  ∀ i rf,
    _safe_dist_breached rf = Some flag →
    ∃ calls,
      call_log (for_each_unit (calculate_step laser kwargs) i us rf).2
      = call_log rf ++ calls
      ∧ calls `prefix_of` expected_calls b laser kwargs i us
      ∧ ((for_each_unit (calculate_step laser kwargs) i us rf).1 = Ok tt →
         calls = expected_calls b laser kwargs i us).
Proof.
  intros Hb. induction us as [|u rest IH]; intros i rf Hflag.
  - exists []. simpl. by rewrite app_nil_r.
  - cbn [for_each_unit expected_calls]. unfold bind.
    destruct (b && negb (on_safe_dist_violation u)) eqn:Hrun.
    + apply andb_true_iff in Hrun as [-> Hu]. apply negb_true_iff in Hu.
      rewrite (calculate_step_skips _ _ _ _ _ flag) by done.
      by apply IH.
    + rewrite (calculate_step_calls _ _ _ _ _ flag b) by done.
      pose proof (call_unit_log laser kwargs i u rf) as Hlog.
      assert (Hkeep : _safe_dist_breached (call_unit laser kwargs i u rf).2
                      = Some flag).
      { rewrite <- Hflag. by apply preserves_call_unit. }
      destruct (call_unit laser kwargs i u rf) as [[[]|e] rf1]; simpl in *.
      * destruct (IH (S i) rf1 Hkeep) as (calls & Hcalls & Hpre & Hall).
        exists (Called i laser kwargs :: calls). split; [|split].
        -- by rewrite Hcalls, Hlog, <- app_assoc.
        -- by apply prefix_cons.
        -- intros Hok. by rewrite Hall.
      * exists [Called i laser kwargs]. split; [done|]. split; [|done].
        by apply prefix_cons, prefix_nil.
Qed.

(** X3.  On an object whose attribute behind [safe_dist_breached] is
    assigned, the loop follows the skip rule.  The calls it makes are an
    initial part of the expected ones, all of them when it returns
    normally, each with the scan and the remaining keyword arguments; and
    the unit at a position is among the expected ones exactly when the
    flag is clear or the unit is breach-exempt. *)
Theorem calculate_reward_calls_follow_skip_rule
    (call : dict) (laser flag : value) (b : bool) (rf : RewardFunction) :
  call !! "laser_scan" = Some laser →
  _safe_dist_breached rf = Some flag →
  py_bool flag = Ok b →
  let kwargs := delete "laser_scan" call in
  let expected := expected_calls b laser kwargs 0 (_reward_units rf) in
  (∃ calls,
     call_log (calculate_reward call rf).2 = call_log rf ++ calls
     ∧ calls `prefix_of` expected
     ∧ ((calculate_reward call rf).1 = Ok tt → calls = expected))
  ∧ (∀ j, Called j laser kwargs ∈ expected
          ↔ ∃ u, _reward_units rf !! j = Some u
                 ∧ (b = false ∨ on_safe_dist_violation u = true)).
Proof.
  intros Hcall Hflag Hb. cbv zeta. split.
  - unfold calculate_reward. rewrite Hcall. unfold bind, read.
    by apply (for_each_calculate_calls _ _ flag).
  - intros j. rewrite elem_of_expected_calls, Nat.sub_0_r. split.
    + intros (u & _ & Hu & Hrun). exists u. split; [done|].
      destruct b; [right|by left]. by destruct (on_safe_dist_violation u).
    + intros (u & Hu & Hrun). exists u. split; [lia|]. split; [done|].
      destruct Hrun as [->| ->]; [done|]. by destruct b.
Qed.

Lemma calculate_reward_calls_follow_skip_rule_witness :
  (∃ calls,
     call_log (calculate_reward example_call_single_beam example_rf_flagged).2
     = call_log example_rf_flagged ++ calls
     ∧ calls `prefix_of`
         expected_calls true (VArray [0.2%Q])
           (delete "laser_scan" example_call_single_beam) 0
           (_reward_units example_rf_flagged)
     ∧ ((calculate_reward example_call_single_beam example_rf_flagged).1 = Ok tt →
        calls = expected_calls true (VArray [0.2%Q])
                  (delete "laser_scan" example_call_single_beam) 0
                  (_reward_units example_rf_flagged)))
  ∧ (∀ j, Called j (VArray [0.2%Q]) (delete "laser_scan" example_call_single_beam)
            ∈ expected_calls true (VArray [0.2%Q])
                (delete "laser_scan" example_call_single_beam) 0
                (_reward_units example_rf_flagged)
          ↔ ∃ u, _reward_units example_rf_flagged !! j = Some u
                 ∧ (true = false ∨ on_safe_dist_violation u = true)).
Proof.
  apply (calculate_reward_calls_follow_skip_rule example_call_single_beam
           (VArray [0.2%Q]) (VBool true) true example_rf_flagged);
    reflexivity.
Defined.

Lemma for_each_all_skipped laser kwargs flag (us : list RewardUnit) :
  py_bool flag = Ok true →
  Forall (λ u, on_safe_dist_violation u = false) us →
  ∀ i rf,
    _safe_dist_breached rf = Some flag →
    for_each_unit (calculate_step laser kwargs) i us rf = (Ok tt, rf).
Proof.
  intros Hb Hall. induction Hall as [|u rest Hu _ IH]; intros i rf Hflag.
  - done.
  - cbn [for_each_unit]. unfold bind.
    rewrite (calculate_step_skips _ _ _ _ _ flag) by done. by apply IH.
Qed.

(** X4.  When the flag read by the loop is set and no unit is
    breach-exempt, [calculate_reward] returns normally and leaves the
    object as it was: nothing is added to the reward or the info and no
    unit is called. *)
Theorem breach_without_exempt_units_changes_nothing
    (call : dict) (laser flag : value) (rf : RewardFunction) :
  call !! "laser_scan" = Some laser →
  _safe_dist_breached rf = Some flag →
  py_bool flag = Ok true →
  Forall (λ u, on_safe_dist_violation u = false) (_reward_units rf) →
  calculate_reward call rf = (Ok tt, rf).
Proof.
  intros Hcall Hflag Hb Hall. unfold calculate_reward. rewrite Hcall.
  unfold bind, read. by apply (for_each_all_skipped _ _ flag).
Qed.

Lemma breach_without_exempt_units_changes_nothing_witness :
  calculate_reward example_call example_rf_goal_only = (Ok tt, example_rf_goal_only).
Proof.
  apply (breach_without_exempt_units_changes_nothing example_call
           (VArray [0.7%Q; 0.2%Q]) (VBool true) example_rf_goal_only);
    try reflexivity.
  repeat constructor.
Defined.

(** ** The unit list *)

Lemma shapes_insert_same (us : list RewardUnit) i u st :
  (unit_shape <$> us) !! i = Some (unit_shape u) →
  unit_shape <$> <[i := set_unit_state st u]> us = unit_shape <$> us.
Proof.
  intros Hi. rewrite list_fmap_insert. by apply list_insert_id.
Qed.

Lemma call_unit_shapes laser kwargs i u rf :
  (unit_shape <$> _reward_units rf) !! i = Some (unit_shape u) →
  unit_shape <$> _reward_units (call_unit laser kwargs i u rf).2
  = unit_shape <$> _reward_units rf.
Proof.
  intros Hi. unfold call_unit, log_event. unfold bind at 1. unfold modify at 1.
  set (rf1 := set_call_log _ rf). unfold bind.
  pose proof (preserves_run_unit _reward_units
                (unit_call u (unit_state u) laser kwargs)
                (λ _ _, eq_refl) (λ _ _, eq_refl) (λ _ _, eq_refl) rf1) as Hrun.
  destruct (run_unit _ rf1) as [[st|e] rf2]; simpl in *.
  - rewrite Hrun. by apply shapes_insert_same.
  - by rewrite Hrun.
Qed.

Lemma calculate_step_shapes laser kwargs i u rf :
  (unit_shape <$> _reward_units rf) !! i = Some (unit_shape u) →
  unit_shape <$> _reward_units (calculate_step laser kwargs i u rf).2
  = unit_shape <$> _reward_units rf.
Proof.
  intros Hi. unfold calculate_step, safe_dist_breached. unfold_m.
  destruct (_safe_dist_breached rf) as [flag|]; [|done].
  destruct (py_bool flag) as [breached|]; [|done].
  destruct (breached && _); [done|]. by apply call_unit_shapes.
Qed.

Lemma reset_unit_shapes i u rf :
  (unit_shape <$> _reward_units rf) !! i = Some (unit_shape u) →
  unit_shape <$> _reward_units (reset_unit i u rf).2
  = unit_shape <$> _reward_units rf.
Proof.
  intros Hi. unfold reset_unit, log_event. unfold_m. cbn.
  by apply shapes_insert_same.
Qed.

Lemma for_each_unit_shapes body :
  (∀ i u rf,
     (unit_shape <$> _reward_units rf) !! i = Some (unit_shape u) →
     unit_shape <$> _reward_units (body i u rf).2
     = unit_shape <$> _reward_units rf) →
  ∀ us i rf,
    drop i (unit_shape <$> _reward_units rf) = unit_shape <$> us →
    unit_shape <$> _reward_units (for_each_unit body i us rf).2
    = unit_shape <$> _reward_units rf.
Proof.
  intros Hbody. induction us as [|u rest IH]; intros i rf Hdrop; [done|].
  cbn [for_each_unit]. unfold bind.
  assert (Hi : (unit_shape <$> _reward_units rf) !! i = Some (unit_shape u)).
  { rewrite <- (Nat.add_0_r i), <- lookup_drop, Hdrop. done. }
  specialize (Hbody i u rf Hi).
  destruct (body i u rf) as [[[]|e] rf1]; simpl in *; [|done].
  rewrite IH; [done|]. rewrite Hbody.
  rewrite (drop_S _ _ _ Hi) in Hdrop. by injection Hdrop.
Qed.

Lemma run_method_shapes MIN mdp c rf :
  unit_shape <$> _reward_units (run_method MIN mdp c rf)
  = unit_shape <$> _reward_units rf.
Proof.
  destruct c; cbn [run_method].
  - f_equal. apply get_reward_outcome.
  - unfold calculate_reward.
    destruct (call !! "laser_scan") as [laser|]; [|done].
    unfold bind, read. apply for_each_unit_shapes; [|done].
    intros i u rf'. apply calculate_step_shapes.
  - f_equal. by apply preserves_update_internal_state_info.
  - unfold reset, goal_radius_setter, bind.
    destruct (Qlt_bool _ MIN); [done|]. unfold_m.
    rewrite for_each_unit_shapes; [done| |done].
    intros i u rf'. apply reset_unit_shapes.
  - unfold goal_radius_setter. by destruct (Qlt_bool v MIN).
  - done.
  - done.
  - done.
  - f_equal. by apply preserves_get_internal_state_info.
Qed.

(** X6.  The unit list is fixed: under every sequence of calls the engine
    keeps the same number of units, in the same order, each with the same
    capability flag, call behaviour and reset behaviour.  Only the private
    states of the units change. *)
Theorem units_keep_their_shape
    (MIN : Q) (mdp : value → result value)
    (cs : list method_call) (rf : RewardFunction) :
  unit_shape <$> _reward_units (run_methods MIN mdp cs rf)
  = unit_shape <$> _reward_units rf
  ∧ length (_reward_units (run_methods MIN mdp cs rf))
    = length (_reward_units rf).
Proof.
  assert (Hshape : unit_shape <$> _reward_units (run_methods MIN mdp cs rf)
                   = unit_shape <$> _reward_units rf).
  { unfold run_methods. revert rf.
    induction cs as [|c cs IH]; intros rf; cbn [foldl]; [done|].
    by rewrite IH, run_method_shapes. }
  split; [done|].
  by rewrite <- (length_fmap unit_shape), Hshape, length_fmap.
Qed.

Lemma setup_units_length inst self (items : list (string * dict)) :
  ∀ us, setup_units inst self items = Ok us → length us = length items.
Proof.
  induction items as [|[unit_name kwargs] items IH]; intros us; simpl.
  - by intros [= <-].
  - destruct (inst unit_name) as [ctor|]; [|done].
    destruct (kwargs !! "reward_function"); [done|].
    destruct (ctor self kwargs) as [u|]; [|done].
    destruct (setup_units inst self items) as [us'|]; [|done].
    intros [= <-]. simpl. by rewrite (IH us').
Qed.

Lemma init_unit_count load inst name rr gr sd rf :
  __init__ load inst name rr gr sd = Ok rf →
  length (_reward_units rf) = length (_rew_fnc_dict rf).
Proof.
  unfold __init__. destruct (load name) as [spec|]; [|done].
  destruct (_setup_reward_function _ _) as [us|] eqn:Hus; [|done].
  intros [= <-]. by apply setup_units_length in Hus.
Qed.

(** X7.  An engine that the constructor has built from a specification
    with at least one entry never evaluates its units: after any sequence
    of calls, [calculate_reward] called with a scan raises the
    AttributeError of the unassigned attribute and changes nothing. *)
Theorem constructed_engine_never_evaluates
    (load : string → result (list (string * dict)))
    (inst : string → result (RewardFunction → dict → result RewardUnit))
    (name : string) (rr gr sd : Q) (rf : RewardFunction)
    (MIN : Q) (mdp : value → result value) (cs : list method_call)
    (call : dict) (laser : value) :
  __init__ load inst name rr gr sd = Ok rf →
  _rew_fnc_dict rf ≠ [] →
  call !! "laser_scan" = Some laser →
  calculate_reward call (run_methods MIN mdp cs rf)
  = (Err (AttributeError "_safe_dist_breached"), run_methods MIN mdp cs rf).
Proof.
  intros Hinit Hspec Hcall.
  assert (Hflag : _safe_dist_breached (run_methods MIN mdp cs rf) = None).
  { rewrite <- (init_leaves_flag_unassigned _ _ _ _ _ _ _ Hinit).
    apply (run_methods_respects
             (λ a b, _safe_dist_breached b = _safe_dist_breached a) MIN);
      try done.
    intros a b c Hab Hbc. congruence. }
  assert (Hlen : length (_reward_units (run_methods MIN mdp cs rf))
                 = length (_rew_fnc_dict rf)).
  { rewrite <- (init_unit_count _ _ _ _ _ _ _ Hinit).
    rewrite <- !(length_fmap unit_shape). f_equal.
    unfold run_methods. clear. revert rf.
    induction cs as [|c cs IH]; intros rf; cbn [foldl]; [done|].
    by rewrite IH, run_method_shapes. }
  destruct (_reward_units (run_methods MIN mdp cs rf)) as [|u us] eqn:Hus.
  - destruct (_rew_fnc_dict rf); [done|]. simpl in Hlen. lia.
  - by apply (calculate_reward_unassigned_flag _ laser u us).
Qed.

Lemma constructed_engine_never_evaluates_witness :
  calculate_reward example_call
    (run_methods example_MIN_GOAL_RADIUS example_min_distance_from_pointcloud
       [CallReset ∅; CallGetReward example_call_single_beam] example_rf)
  = (Err (AttributeError "_safe_dist_breached"),
     run_methods example_MIN_GOAL_RADIUS example_min_distance_from_pointcloud
       [CallReset ∅; CallGetReward example_call_single_beam] example_rf).
Proof.
  apply (constructed_engine_never_evaluates
           example_load_rew_fnc example_instantiate "example"
           0.3%Q 0.3%Q 0.3%Q example_rf
           example_MIN_GOAL_RADIUS example_min_distance_from_pointcloud
           [CallReset ∅; CallGetReward example_call_single_beam]
           example_call (VArray [0.7%Q; 0.2%Q])).
  - reflexivity.
  - discriminate.
  - reflexivity.
Defined.

(** ** Publishing and reading the shared scratch state *)

(** X10.  A value published under a key is what a read of that key returns
    when the value is truthy; a falsy value reads as the default, and an
    array of several elements makes the read raise.  Reads of the other
    keys give what they gave before the publication. *)
Theorem published_value_read_back
    (key other : string) (v dflt : value) (rf : RewardFunction) :
  let rf1 := (add_internal_state_info key v rf).2 in
  get_internal_state_info key dflt rf1
  = (match py_bool v with
     | Ok true => Ok v
     | Ok false => Ok dflt
     | Err e => Err e
     end, rf1)
  ∧ (other ≠ key →
     (get_internal_state_info other dflt rf1).1
     = (get_internal_state_info other dflt rf).1).
Proof.
  cbv zeta. split.
  - unfold get_internal_state_info, internal_state_getitem. unfold_m.
    cbn. rewrite lookup_insert_eq.
    destruct (py_bool v) as [[|]|]; [|done..].
    cbn. by rewrite lookup_insert_eq.
  - intros Hne. unfold get_internal_state_info, internal_state_getitem.
    unfold_m. cbn. rewrite lookup_insert_ne by done.
    destruct (_internal_state_info rf !! other) as [w|] eqn:Hw; [|done].
    destruct (py_bool w) as [[|]|]; [|done..].
    cbn. by rewrite lookup_insert_ne, Hw by done.
Qed.

Lemma published_value_read_back_witness :
  (get_internal_state_info "min_dist_laser" VNone
     (add_internal_state_info "safe_dist_breached" (VBool true)
        example_rf_at_obstacle).2).1
  = (get_internal_state_info "min_dist_laser" VNone example_rf_at_obstacle).1.
Proof.
  apply (published_value_read_back "safe_dist_breached" "min_dist_laser"
           (VBool true) VNone example_rf_at_obstacle).
  discriminate.
Defined.

(** X11.  After the per-step reset a read of a key that was ever published
    returns the default, never the value of the step before and never a
    lookup error; a key that was never published still raises.  Resetting
    twice is resetting once. *)
Theorem read_after_reset_gives_default
    (key : string) (dflt : value) (rf : RewardFunction) :
  get_internal_state_info key dflt (_reset rf).2
  = (match _internal_state_info rf !! key with
     | Some _ => Ok dflt
     | None => Err (KeyError key)
     end, (_reset rf).2)
  ∧ _reset (_reset rf).2 = _reset rf.
Proof.
  rewrite !reset_step_result. cbn [snd]. split.
  - destruct (_internal_state_info rf !! key) as [v|] eqn:Hk.
    + apply (get_internal_state_info_falsy _ _ VNone); [|done].
      cbn. by rewrite lookup_fmap, Hk.
    + apply get_internal_state_info_absent. cbn. by rewrite lookup_fmap, Hk.
  - destruct rf. unfold set_internal_state_info, set_info, set_curr_reward.
    cbn. do 2 f_equal.
    apply map_eq. intros k. rewrite !lookup_fmap.
    by destruct (_ !! k).
Qed.

(** ** The refresh, case by case *)

(** X12.  Without a point cloud the outcome of [set_min_dist_laser] is
    decided by the shape of the scan: an empty scan and a scan of one beam
    reading zero raise the missing-input error, a scan of one nonzero beam
    publishes that beam as the minimum, and a scan of two or more beams
    raises on the truth value of the array.  It returns normally for the
    one-beam nonzero scans only. *)
Theorem refresh_without_cloud_by_shape
    (mdp : value → result value) (a : list Q) (rf : RewardFunction) :
  set_min_dist_laser mdp (VArray a) VNone (VBool false) rf
  = match a with
    | [] => (Err MissingInputError, rf)
    | [x] =>
        if Qnonzero x then
          (Ok tt,
           set_internal_state_info
             (<[ "min_dist_laser" := VFloat x ]> (_internal_state_info rf)) rf)
        else (Err MissingInputError, rf)
    | _ :: _ :: _ => (Err AmbiguousTruthValue, rf)
    end
  ∧ ((set_min_dist_laser mdp (VArray a) VNone (VBool false) rf).1 = Ok tt
     ↔ ∃ x, a = [x] ∧ Qnonzero x = true).
Proof.
  assert (Heq : set_min_dist_laser mdp (VArray a) VNone (VBool false) rf
    = match a with
      | [] => (Err MissingInputError, rf)
      | [x] =>
          if Qnonzero x then
            (Ok tt,
             set_internal_state_info
               (<[ "min_dist_laser" := VFloat x ]> (_internal_state_info rf)) rf)
          else (Err MissingInputError, rf)
      | _ :: _ :: _ => (Err AmbiguousTruthValue, rf)
      end).
  { destruct a as [|x [|y a]]; [done| |done].
    unfold set_min_dist_laser, py_not. unfold_m. simpl.
    by destruct (Qnonzero x). }
  split; [done|]. rewrite Heq. destruct a as [|x [|y a]]; simpl.
  - split; [done|]. by intros (x & ? & _).
  - destruct (Qnonzero x) eqn:Hx; simpl.
    + split; [|done]. intros _. by exists x.
    + split; [done|]. intros (x' & [= <-] & Hx'). congruence.
  - split; [done|]. by intros (x' & ? & _).
Qed.

(** X13.  With the aggregate flag set the minimum comes from the point
    cloud: provided the guard lets the step through (a truthy scan, or a
    falsy scan and a truthy cloud) and the cloud's minimum distance is a
    nonzero number, the refresh publishes that distance and its comparison
    with the safe distance, whatever the scan reads. *)
Theorem refresh_from_point_cloud
    (mdp : value → result value) (laser cloud flag : value) (kwargs : dict)
    (d : Q) (rf : RewardFunction) :
  py_bool flag = Ok true →
  py_bool laser = Ok true ∨ (py_bool laser = Ok false ∧ py_bool cloud = Ok true) →
  mdp cloud = Ok (VFloat d) →
  Qnonzero d = true →
  update_internal_state_info mdp laser cloud flag kwargs rf
  = (Ok tt,
     set_internal_state_info
       (<[ "safe_dist_breached" := VBool (Qle_bool d (_safe_dist rf)) ]>
          (<[ "min_dist_laser" := VFloat d ]> (_internal_state_info rf))) rf).
Proof.
  intros Hflag Hguard Hmdp Hd.
  unfold update_internal_state_info, set_min_dist_laser, py_not.
  unfold bind at 1.
  assert (Hmin : ∀ rf0,
            (let* m := lift (mdp cloud) in
             add_internal_state_info "min_dist_laser" m) rf0
            = (Ok tt, set_internal_state_info
                        (<[ "min_dist_laser" := VFloat d ]>
                           (_internal_state_info rf0)) rf0)).
  { intros rf0. unfold_m. by rewrite Hmdp. }
  assert (Hfirst :
    (let* no_laser := lift (result_map negb (py_bool laser)) in
     let* missing :=
       (if no_laser : bool then lift (result_map negb (py_bool cloud))
        else ret false) in
     if missing : bool then raise MissingInputError
     else
       let* direct := lift (result_map negb (py_bool flag)) in
       if direct : bool then
         let* m := lift (py_min laser) in
         add_internal_state_info "min_dist_laser" m
       else
         let* m := lift (mdp cloud) in
         add_internal_state_info "min_dist_laser" m) rf
    = (Ok tt, set_internal_state_info
                (<[ "min_dist_laser" := VFloat d ]> (_internal_state_info rf))
                rf)).
  { rewrite Hflag. destruct Hguard as [Hl|[Hl Hc]].
    - rewrite Hl. unfold bind at 1 2 3. simpl. apply Hmin.
    - rewrite Hl, Hc. unfold bind at 1 2 3. simpl. apply Hmin. }
  rewrite Hfirst. unfold set_safe_dist_breached. unfold bind at 1.
  rewrite (get_internal_state_info_truthy _ _ (VFloat d));
    [|apply lookup_insert_eq|by simpl; rewrite Hd].
  by destruct rf.
Qed.

Lemma refresh_from_point_cloud_witness :
  update_internal_state_info example_min_distance_from_pointcloud
    (VArray [0.2%Q]) (VCloud [ {| px := 1; py := 0; pz := 0; pindex := 0 |} ])
    (VBool true) ∅ example_rf
  = (Ok tt,
     set_internal_state_info
       (<[ "safe_dist_breached" := VBool false ]>
          (<[ "min_dist_laser" := VFloat 1%Q ]> ∅)) example_rf).
Proof.
  refine (refresh_from_point_cloud example_min_distance_from_pointcloud
            (VArray [0.2%Q])
            (VCloud [ {| px := 1; py := 0; pz := 0; pindex := 0 |} ])
            (VBool true) ∅ 1%Q example_rf _ _ _ _ : _).
  - reflexivity.
  - left. reflexivity.
  - reflexivity.
  - reflexivity.
Defined.

(** X14.  [set_safe_dist_breached] is decided by the stored minimum.  A
    nonzero number is compared with the safe distance and the outcome is
    published as the breach flag; a falsy minimum, zero and the unset value
    included, raises the TypeError of comparing [None] and publishes
    nothing; a minimum that was never published raises the lookup error. *)
Theorem breach_flag_by_stored_minimum (rf : RewardFunction) :
  (∀ x, _internal_state_info rf !! "min_dist_laser" = Some (VFloat x) →
        Qnonzero x = true →
        ∃ b, set_safe_dist_breached rf
             = (Ok tt,
                set_internal_state_info
                  (<[ "safe_dist_breached" := VBool b ]> (_internal_state_info rf))
                  rf)
             ∧ (b = true ↔ (x <= _safe_dist rf)%Q))
  ∧ (∀ v, _internal_state_info rf !! "min_dist_laser" = Some v →
          py_bool v = Ok false →
          set_safe_dist_breached rf = (Err (TypeError "<="), rf))
  ∧ (_internal_state_info rf !! "min_dist_laser" = None →
     set_safe_dist_breached rf = (Err (KeyError "min_dist_laser"), rf)).
Proof.
  split; [|split].
  - intros x Hk Hx. exists (Qle_bool x (_safe_dist rf)). split.
    + unfold set_safe_dist_breached. unfold bind at 1.
      rewrite (get_internal_state_info_truthy _ _ (VFloat x));
        [done|done|by simpl; rewrite Hx].
    + apply Qle_bool_iff.
  - intros v. apply set_safe_dist_breached_falsy_minimum.
  - intros Hk. unfold set_safe_dist_breached. unfold bind at 1.
    by rewrite get_internal_state_info_absent.
Qed.

Lemma breach_flag_by_stored_minimum_witness :
  (∃ b, set_safe_dist_breached example_rf_refreshed
        = (Ok tt,
           set_internal_state_info
             (<[ "safe_dist_breached" := VBool b ]>
                (_internal_state_info example_rf_refreshed))
             example_rf_refreshed)
        ∧ (b = true ↔ (0.2 <= _safe_dist example_rf_refreshed)%Q))
  ∧ set_safe_dist_breached example_rf_at_obstacle
    = (Err (TypeError "<="), example_rf_at_obstacle)
  ∧ set_safe_dist_breached example_rf
    = (Err (KeyError "min_dist_laser"), example_rf).
Proof.
  split; [|split].
  - apply (proj1 (breach_flag_by_stored_minimum example_rf_refreshed) 0.2%Q);
      reflexivity.
  - apply (proj1 (proj2 (breach_flag_by_stored_minimum example_rf_at_obstacle))
             (VFloat 0%Q)); reflexivity.
  - apply (proj2 (proj2 (breach_flag_by_stored_minimum example_rf))).
    reflexivity.
Defined.

(** X23.  The refresh writes the keys [min_dist_laser] and
    [safe_dist_breached] and no other: every other key of the shared
    scratch state holds afterwards what it held before, whether the
    refresh returns or raises.  After a whole step every other key that
    was present holds the unset value, also when the step raises. *)
Theorem refresh_touches_two_keys
    (mdp : value → result value) (laser cloud flag : value) (kwargs call : dict)
    (key : string) (rf : RewardFunction) :
  key ≠ "min_dist_laser" →
  key ≠ "safe_dist_breached" →
  _internal_state_info
    (update_internal_state_info mdp laser cloud flag kwargs rf).2 !! key
  = _internal_state_info rf !! key
  ∧ _internal_state_info (get_reward mdp call rf).2 !! key
    = (λ _, VNone) <$> (_internal_state_info rf !! key).
Proof.
  intros Hmin Hsafe.
  assert (Hrefresh : ∀ laser cloud flag kwargs rf,
            _internal_state_info
              (update_internal_state_info mdp laser cloud flag kwargs rf).2 !! key
            = _internal_state_info rf !! key).
  { clear laser cloud flag kwargs rf. intros laser cloud flag kwargs rf.
    unfold update_internal_state_info, bind.
    pose proof (set_min_dist_laser_other_keys mdp laser cloud flag key rf Hmin)
      as H1.
    destruct (set_min_dist_laser mdp laser cloud flag rf) as [[[]|e] rf1];
      simpl in *; [|done].
    by rewrite set_safe_dist_breached_other_keys. }
  split; [apply Hrefresh|].
  rewrite get_reward_unfold.
  specialize (Hrefresh (default VNone (call !! "laser_scan"))
                (default VNone (call !! "point_cloud"))
                (default (VBool false) (call !! "from_aggregate_obs"))
                (delete "laser_scan"
                   (delete "point_cloud" (delete "from_aggregate_obs" call)))
                (set_internal_state_info
                   ((λ _, VNone) <$> _internal_state_info rf)
                   (set_info ∅ (set_curr_reward 0%Q rf)))).
  destruct (update_internal_state_info _ _ _ _ _ _) as [[[]|e] rf1];
    simpl in *; rewrite Hrefresh; cbn; by rewrite lookup_fmap.
Qed.

Lemma refresh_touches_two_keys_witness :
  _internal_state_info
    (update_internal_state_info example_min_distance_from_pointcloud
       (VArray [0.2%Q]) VNone (VBool false) ∅
       (add_internal_state_info "distance_travelled" (VFloat 4%Q) example_rf).2).2
    !! "distance_travelled"
  = _internal_state_info
      (add_internal_state_info "distance_travelled" (VFloat 4%Q) example_rf).2
      !! "distance_travelled"
  ∧ _internal_state_info
      (get_reward example_min_distance_from_pointcloud example_call
         (add_internal_state_info "distance_travelled" (VFloat 4%Q) example_rf).2).2
      !! "distance_travelled"
    = (λ _, VNone)
        <$> (_internal_state_info
               (add_internal_state_info "distance_travelled" (VFloat 4%Q)
                  example_rf).2 !! "distance_travelled").
Proof.
  apply (refresh_touches_two_keys example_min_distance_from_pointcloud
           (VArray [0.2%Q]) VNone (VBool false) ∅ example_call
           "distance_travelled"
           (add_internal_state_info "distance_travelled" (VFloat 4%Q) example_rf).2);
    discriminate.
Defined.

(** ** Construction, failing *)

Lemma setup_units_ok_valid inst self (items : list (string * dict)) :
  ∀ us, setup_units inst self items = Ok us →
        Forall (valid_entry inst self) items.
Proof.
  induction items as [|[unit_name kwargs] items IH]; intros us; simpl.
  - constructor.
  - destruct (inst unit_name) as [ctor|] eqn:Hreg; [|done].
    destruct (kwargs !! "reward_function") eqn:Hkw; [done|].
    destruct (ctor self kwargs) as [u|] eqn:Hctor; [|done].
    destruct (setup_units inst self items) as [us'|]; [|done].
    intros _. constructor; [|by apply (IH us')].
    split; [done|]. exists u, ctor. done.
Qed.

Lemma setup_units_first_failure inst self (good rest : list (string * dict))
    (item : string * dict) (e : py_error) :
  Forall (valid_entry inst self) good →
  inst item.1 = Err e →
  setup_units inst self (good ++ item :: rest) = Err e.
Proof.
  intros Hgood Hbad.
  induction Hgood as [|[unit_name kwargs] good [Hkw (u & ctor & Hreg & Hctor)] _ IH].
  - destruct item as [unit_name kwargs]. simpl in *. by rewrite Hbad.
  - simpl in *. by rewrite Hreg, Hkw, Hctor, IH.
Qed.

(** X15.  The constructor returns an object exactly when the specification
    loads and every entry of it is valid; and when the entries before an
    unregistered identifier are valid, the constructor raises the
    registry's error for that identifier, however the specification goes
    on: no object with a partial unit list comes out. *)
Theorem constructor_succeeds_iff_valid
    (load : string → result (list (string * dict)))
    (inst : string → result (RewardFunction → dict → result RewardUnit))
    (name : string) (rr gr sd : Q) :
  ((∃ rf, __init__ load inst name rr gr sd = Ok rf)
   ↔ ∃ spec, load name = Ok spec
             ∧ Forall (valid_entry inst (initial_attributes name rr gr sd spec))
                 spec)
  ∧ (∀ good item rest e,
       load name = Ok (good ++ item :: rest) →
       Forall (valid_entry inst
                 (initial_attributes name rr gr sd (good ++ item :: rest))) good →
       inst item.1 = Err e →
       __init__ load inst name rr gr sd = Err e).
Proof.
  split; [split|].
  - intros [rf Hinit]. unfold __init__, _setup_reward_function in Hinit.
    destruct (load name) as [spec|]; [|done]. exists spec. split; [done|].
    simpl in Hinit.
    destruct (setup_units inst _ spec) as [us|] eqn:Hus; [|done].
    by apply (setup_units_ok_valid _ _ _ us).
  - intros (spec & Hload & Hvalid).
    destruct (setup_units_valid _ _ _ Hvalid) as (us & Hus & _).
    exists (set_reward_units us (initial_attributes name rr gr sd spec)).
    unfold __init__, _setup_reward_function. rewrite Hload. simpl.
    by rewrite Hus.
  - intros good item rest e Hload Hgood Hbad.
    unfold __init__, _setup_reward_function. rewrite Hload. simpl.
    by rewrite (setup_units_first_failure _ _ _ _ _ e).
Qed.

Lemma constructor_succeeds_iff_valid_witness :
  __init__
    (λ _, Ok ([ ("goal_distance", {[ "weight" := VFloat (-0.1)%Q ]}) ]
              ++ ("approach_goal", ∅) :: [ ("safe_distance", ∅) ]))
    example_instantiate "broken" 0.3%Q 0.3%Q 0.3%Q
  = Err (RegistryError "approach_goal").
Proof.
  apply (proj2 (constructor_succeeds_iff_valid
                  (λ _, Ok ([ ("goal_distance", {[ "weight" := VFloat (-0.1)%Q ]}) ]
                            ++ ("approach_goal", ∅) :: [ ("safe_distance", ∅) ]))
                  example_instantiate "broken" 0.3%Q 0.3%Q 0.3%Q)
           [ ("goal_distance", {[ "weight" := VFloat (-0.1)%Q ]}) ]
           ("approach_goal", ∅) [ ("safe_distance", ∅) ]).
  - reflexivity.
  - repeat constructor.
    exists (goal_distance_unit (-0.1)%Q). eexists. split; reflexivity.
  - reflexivity.
Defined.

(** * Laser messages *)

Lemma process_laser_msg_empty (msg : LaserScanMsg) (n : Z) :
  ranges msg = [] →
  process_laser_msg msg n
  = if (n <? 0)%Z then None else Some (replicate (Z.to_nat n) (RNum 0%Q)).
Proof. intros H. unfold process_laser_msg. by rewrite H. Qed.

Lemma process_laser_msg_nonempty (msg : LaserScanMsg) (n : Z) :
  ranges msg ≠ [] →
  process_laser_msg msg n
  = Some (map (λ r, if is_nan r then range_max msg else r) (ranges msg)).
Proof.
  intros H. unfold process_laser_msg.
  destruct (ranges msg); [done|]. done.
Qed.



(** X18.  When [range_max] is not NaN the array that [process_laser_msg]
    returns holds no NaN; and processing the processed beams again, as the
    ranges of a message with the same [range_max], changes nothing. *)
Theorem process_laser_msg_removes_nan
    (msg : LaserScanMsg) (n : Z) (laser : list reading) :
  process_laser_msg msg n = Some laser →
  is_nan (range_max msg) = false →
  Forall (λ r, is_nan r = false) laser
  ∧ (ranges msg ≠ [] →
     process_laser_msg {| ranges := laser; range_max := range_max msg |} n
     = Some laser).
Proof.
  intros Hproc Hmax.
  assert (Hclean : Forall (λ r, is_nan r = false) laser).
  { unfold process_laser_msg in Hproc.
    destruct (Nat.eqb (length (ranges msg)) 0).
    - destruct (n <? 0)%Z; [done|]. injection Hproc as <-.
      apply Forall_forall. intros r Hr.
      by apply elem_of_replicate in Hr as [-> _].
    - injection Hproc as <-. apply Forall_forall. intros r Hr.
      change map with (@fmap list _) in Hr.
      apply list_elem_of_fmap in Hr as (r' & -> & _).
      by destruct (is_nan r') eqn:Hnan. }
  split; [done|]. intros Hne.
  rewrite process_laser_msg_nonempty in Hproc by done. injection Hproc as <-.
  rewrite process_laser_msg_nonempty.
  - cbn [ranges range_max]. f_equal.
    set (l := map _ (ranges msg)) in *. clearbody l.
    induction Hclean as [|r l Hr _ IH]; [done|]. simpl. by rewrite Hr, IH.
  - cbn [ranges]. destruct (ranges msg); [done|]. done.
Qed.

Lemma process_laser_msg_removes_nan_witness :
  Forall (λ r, is_nan r = false) [RNum 0.5%Q; RNum 3.5%Q; RInf false]
  ∧ (ranges example_scan_msg ≠ [] →
     process_laser_msg
       {| ranges := [RNum 0.5%Q; RNum 3.5%Q; RInf false];
          range_max := range_max example_scan_msg |} 360
     = Some [RNum 0.5%Q; RNum 3.5%Q; RInf false]).
Proof.
  apply (process_laser_msg_removes_nan example_scan_msg 360
           [RNum 0.5%Q; RNum 3.5%Q; RInf false]); reflexivity.
Defined.

(** X19.  A robot that has not received a scan cannot be refreshed: the
    zeros that [process_laser_msg] makes of a message without readings,
    given to [set_min_dist_laser] with no point cloud, raise the
    missing-input error when at most one beam is configured and the error
    of the ambiguous truth value otherwise, and nothing is published. *)
Theorem unscanned_robot_cannot_refresh
    (mdp : value → result value) (msg : LaserScanMsg) (n : Z)
    (flag : value) (rf : RewardFunction) :
  ranges msg = [] →
  (0 <= n)%Z →
  process_laser_msg msg n = Some (RNum <$> replicate (Z.to_nat n) 0%Q)
  ∧ set_min_dist_laser mdp (VArray (replicate (Z.to_nat n) 0%Q)) VNone flag rf
    = (Err (if (n <=? 1)%Z then MissingInputError else AmbiguousTruthValue), rf).
Proof.
  intros Hempty Hn. split.
  - rewrite process_laser_msg_empty by done.
    destruct (Z.ltb_spec n 0); [lia|]. by rewrite fmap_replicate.
  - destruct (Z.leb_spec n 1).
    + assert (Hcases : Z.to_nat n = 0 ∨ Z.to_nat n = 1) by lia.
      destruct Hcases as [-> | ->]; reflexivity.
    + destruct (Z.to_nat n) as [|[|k]] eqn:Hk; [lia..|]. reflexivity.
Qed.

Lemma unscanned_robot_cannot_refresh_witness :
  process_laser_msg {| ranges := []; range_max := RNum 3.5%Q |} 360
  = Some (RNum <$> replicate (Z.to_nat 360) 0%Q)
  ∧ set_min_dist_laser example_min_distance_from_pointcloud
      (VArray (replicate (Z.to_nat 360) 0%Q)) VNone (VBool false) example_rf
    = (Err (if (360 <=? 1)%Z then MissingInputError else AmbiguousTruthValue),
       example_rf).
Proof.
  apply (unscanned_robot_cannot_refresh example_min_distance_from_pointcloud
           {| ranges := []; range_max := RNum 3.5%Q |} 360 (VBool false)
           example_rf).
  - reflexivity.
  - lia.
Defined.

(** * Aggregated observations *)

Section AggregateProperties.

Variables LaserScan Ranges SemanticData Accumulated : Type.
Variable scan_ranges : LaserScan → Ranges.
Variable minimum_accumulate : list Ranges → option Accumulated.
Variable LASER : string.

Local Abbreviation obs := (obs_value SemanticData Accumulated).
Local Abbreviation collector := (AggregateCollectorUnit LaserScan SemanticData).
Local Abbreviation observe :=
  (get_observations LaserScan Ranges SemanticData Accumulated
     scan_ranges minimum_accumulate LASER).
Local Abbreviation deliver := (write_semantic SemanticData Accumulated).

Lemma write_semantic_other (sem : list (string * Observation SemanticData)) :
  ∀ (d : gmap string obs) (k : string),
    k ∉ sem.*1 → deliver sem d !! k = d !! k.
Proof.
  unfold write_semantic.
  induction sem as [|[k1 o1] sem IH]; intros d k Hk; [done|].
  cbn [foldl]. rewrite fmap_cons, not_elem_of_cons in Hk.
  destruct Hk as [Hne Hk]. rewrite IH by done.
  by rewrite lookup_insert_ne.
Qed.

Lemma write_semantic_entry (sem : list (string * Observation SemanticData)) :
  ∀ (d : gmap string obs) (k : string) (o : Observation SemanticData),
    NoDup sem.*1 → (k, o) ∈ sem →
    deliver sem d !! k = Some (OSemantic SemanticData Accumulated (_value o)).
Proof.
  induction sem as [|[k1 o1] sem IH]; intros d k o Hnodup Hin.
  - by apply elem_of_nil in Hin.
  - rewrite fmap_cons in Hnodup. apply NoDup_cons in Hnodup as [Hfresh Hnodup].
    apply elem_of_cons in Hin as [[= -> ->]|Hin].
    + change (deliver ((k1, o1) :: sem) d)
        with (deliver sem (<[k1 := OSemantic SemanticData Accumulated (_value o1)]> d)).
      rewrite write_semantic_other by done. apply lookup_insert_eq.
    + change (deliver ((k1, o1) :: sem) d)
        with (deliver sem (<[k1 := OSemantic SemanticData Accumulated (_value o1)]> d)).
      by apply IH.
Qed.

Lemma any_fresh_invalidated (lasers : list (Observation LaserScan)) :
  any_fresh LaserScan (invalidate <$> lasers) = false.
Proof.
  unfold any_fresh. induction lasers as [|o lasers IH]; [done|].
  rewrite fmap_cons. simpl. exact IH.
Qed.

(** X20.  When a laser sensor has delivered since the last call and the
    accumulation succeeds, [get_observations] returns a dictionary that
    holds the accumulated scan under the laser key (unless a semantic
    layer uses that key) and marks every laser observation stale, keeping
    their values and the semantic observations.  A call that follows
    immediately accumulates nothing: it only delivers the semantic
    entries. *)
Theorem aggregate_consumes_fresh_scans
    (self : collector) (d : gmap string obs) (a : Accumulated) :
  any_fresh LaserScan (_laser_observations _ _ self) = true →
  minimum_accumulate
    (map (λ o, scan_ranges (_value o)) (_laser_observations _ _ self)) = Some a →
  ∃ d' self',
    observe self d = (Some d', self')
    ∧ Forall (λ o, _stale o = true) (_laser_observations _ _ self')
    ∧ _value <$> _laser_observations _ _ self'
      = _value <$> _laser_observations _ _ self
    ∧ _semantic_observations _ _ self' = _semantic_observations _ _ self
    ∧ (LASER ∉ (_semantic_observations _ _ self).*1 →
       d' !! LASER = Some (OLaser SemanticData Accumulated a))
    ∧ ∀ d2, observe self' d2
            = (Some (deliver (_semantic_observations _ _ self) d2), self').
Proof.
  intros Hfresh Hacc. unfold get_observations. rewrite Hfresh, Hacc.
  eexists _, _. split; [done|]. cbn [_laser_observations _semantic_observations].
  change map with (@fmap list _).
  split; [|split; [|split; [done|split]]].
  - apply Forall_fmap, Forall_forall. by intros o _.
  - rewrite <- list_fmap_compose. by apply list_fmap_ext.
  - intros Hkey. rewrite write_semantic_other by done. apply lookup_insert_eq.
  - intros d2. by rewrite any_fresh_invalidated.
Qed.

(** X21.  When no laser sensor has delivered since the last call,
    [get_observations] does not accumulate at all: it returns normally
    even if the accumulation would raise, leaves the collector as it was,
    and the entry under the laser key is the one the caller passed in
    (unless a semantic layer uses that key). *)
Theorem aggregate_idle_leaves_laser
    (self : collector) (d : gmap string obs) :
  any_fresh LaserScan (_laser_observations _ _ self) = false →
  ∃ d', observe self d = (Some d', self)
        ∧ (LASER ∉ (_semantic_observations _ _ self).*1 →
           d' !! LASER = d !! LASER).
Proof.
  intros Hidle. unfold get_observations. rewrite Hidle.
  eexists. split; [done|]. intros Hkey. by apply write_semantic_other.
Qed.

(** X22.  Whenever [get_observations] returns a dictionary, every semantic
    layer's current value stands in it under the layer's key, delivered or
    not since the last call, and every key that is neither a semantic key
    nor the laser key holds what the caller passed in. *)
Theorem aggregate_delivers_semantic
    (self : collector) (d d' : gmap string obs) (self' : collector) :
  get_observations LaserScan Ranges SemanticData Accumulated
    scan_ranges minimum_accumulate LASER self d = (Some d', self') →
  NoDup (_semantic_observations _ _ self).*1 →
  (∀ k o, (k, o) ∈ _semantic_observations _ _ self →
          d' !! k = Some (OSemantic SemanticData Accumulated (_value o)))
  ∧ (∀ k, k ∉ (_semantic_observations _ _ self).*1 → k ≠ LASER →
          d' !! k = d !! k).
Proof.
  intros Hobs Hnodup. unfold get_observations in Hobs.
  assert (Hd' : d' = deliver (_semantic_observations _ _ self) d
                ∨ ∃ a, d' = deliver (_semantic_observations _ _ self)
                              (<[LASER := OLaser SemanticData Accumulated a]> d)).
  { destruct (any_fresh _ _).
    - destruct (minimum_accumulate _) as [a|]; [|done].
      injection Hobs as <- _. right. by exists a.
    - injection Hobs as <- _. by left. }
  split.
  - intros k o Hin. destruct Hd' as [->|[a ->]]; by apply write_semantic_entry.
  - intros k Hk Hlaser. destruct Hd' as [->|[a ->]].
    + by apply write_semantic_other.
    + rewrite write_semantic_other by done. by rewrite lookup_insert_ne.
Qed.

End AggregateProperties.

Lemma aggregate_consumes_fresh_scans_witness :
  ∃ d' self',
    get_observations (list Q) (list Q) (list Q) (list (list Q))
      id example_accumulate "laser_scan" example_collector ∅
    = (Some d', self')
    ∧ Forall (λ o, _stale o = true) (_laser_observations _ _ self')
    ∧ _value <$> _laser_observations _ _ self'
      = _value <$> _laser_observations _ _ example_collector
    ∧ _semantic_observations _ _ self'
      = _semantic_observations _ _ example_collector
    ∧ ("laser_scan" ∉ (_semantic_observations _ _ example_collector).*1 →
       d' !! "laser_scan"
       = Some (OLaser (list Q) (list (list Q)) [[1%Q; 5%Q]; [1%Q; 2%Q]]))
    ∧ ∀ d2, get_observations (list Q) (list Q) (list Q) (list (list Q))
              id example_accumulate "laser_scan" self' d2
            = (Some (write_semantic (list Q) (list (list Q))
                       (_semantic_observations _ _ example_collector) d2), self').
Proof.
  apply (aggregate_consumes_fresh_scans (list Q) (list Q) (list Q) (list (list Q))
           id example_accumulate "laser_scan" example_collector ∅
           [[1%Q; 5%Q]; [1%Q; 2%Q]]); reflexivity.
Defined.

Lemma aggregate_idle_leaves_laser_witness :
  ∃ d', get_observations (list Q) (list Q) (list Q) (list (list Q))
          id example_accumulate "laser_scan" example_collector_idle ∅
        = (Some d', example_collector_idle)
        ∧ ("laser_scan" ∉ (_semantic_observations _ _ example_collector_idle).*1 →
           d' !! "laser_scan"
           = (∅ : gmap string (obs_value (list Q) (list (list Q)))) !! "laser_scan").
Proof.
  apply (aggregate_idle_leaves_laser (list Q) (list Q) (list Q) (list (list Q))
           id example_accumulate "laser_scan" example_collector_idle ∅).
  reflexivity.
Defined.

Lemma aggregate_delivers_semantic_witness :
  (∀ k o, (k, o) ∈ _semantic_observations _ _ example_collector →
          write_semantic (list Q) (list (list Q))
            (_semantic_observations _ _ example_collector)
            (<[ "laser_scan" := OLaser (list Q) (list (list Q))
                                  [[1%Q; 5%Q]; [1%Q; 2%Q]] ]> ∅) !! k
          = Some (OSemantic (list Q) (list (list Q)) (_value o)))
  ∧ (∀ k, k ∉ (_semantic_observations _ _ example_collector).*1 →
          k ≠ "laser_scan" →
          write_semantic (list Q) (list (list Q))
            (_semantic_observations _ _ example_collector)
            (<[ "laser_scan" := OLaser (list Q) (list (list Q))
                                  [[1%Q; 5%Q]; [1%Q; 2%Q]] ]> ∅) !! k
          = (∅ : gmap string (obs_value (list Q) (list (list Q)))) !! k).
Proof.
  apply (aggregate_delivers_semantic (list Q) (list Q) (list Q) (list (list Q))
           id example_accumulate "laser_scan" example_collector ∅ _
           {| _laser_observations :=
                invalidate <$> _laser_observations _ _ example_collector;
              _semantic_observations :=
                _semantic_observations _ _ example_collector |}).
  - reflexivity.
  - repeat constructor. by intros ?%elem_of_nil.
Defined.
